(** * Branch management utilities of the zeroshot CLI ([src/lib/branch-manager.js])

    A shallow embedding of the branch manager and the properties of its
    inspection, planning and deletion functions.

    Every function of the module talks to the version-control tool through
    [execSync]: a command line and a working directory go in, the captured
    standard output comes back, or an exception is thrown when the process
    exits with a failure.  The embedding keeps that shape: the outside world
    is a state [W], [execSync] is a parameter that steps the world and either
    returns normally or throws, and the functions are written in a small
    state-and-exception monad with [try_catch]. *)

From Stdlib Require Import Ascii String Bool Arith Lia.
From stdpp Require Import base option list strings gmap.

Local Open Scope stdpp_scope.

(** ** JavaScript string and array primitives used by the module

    A string is a sequence of code units; the model keeps the code units
    below 256 (Rocq's [ascii]). *)
Module JS.

Definition LF : ascii := "010"%char.
Definition CR : ascii := "013"%char.
Definition DQUOTE : ascii := "034"%char.
Definition SLASH : ascii := "/"%char.

(** White space and line terminators as [String.prototype.trim] sees them:
    TAB, LF, VT, FF, CR, SP and NBSP. *)
Definition is_white_space (c : ascii) : bool :=
  match c with
  | "009" | "010" | "011" | "012" | "013" | " " | "160" => true
  | _ => false
  end%char.

(** Line terminators, which [.] of a regular expression does not match. *)
Definition is_line_terminator (c : ascii) : bool :=
  match c with
  | "010" | "013" => true
  | _ => false
  end%char.

Definition is_empty (s : string) : bool :=
  match s with EmptyString => true | String _ _ => false end.

Fixpoint trimStart (s : string) : string :=
  match s with
  | EmptyString => EmptyString
  | String c r => if is_white_space c then trimStart r else s
  end.

Fixpoint trimEnd (s : string) : string :=
  match s with
  | EmptyString => EmptyString
  | String c r =>
      let r' := trimEnd r in
      if is_white_space c && is_empty r' then EmptyString else String c r'
  end.

(** [s.trim()] *)
Definition trim (s : string) : string := trimEnd (trimStart s).

(** [s.split(c)] for a separator of one code unit: never the empty array. *)
Fixpoint split (sep : ascii) (s : string) : list string :=
  match s with
  | EmptyString => [EmptyString]
  | String c r =>
      if Ascii.eqb c sep then EmptyString :: split sep r
      else match split sep r with
           | h :: t => String c h :: t
           | [] => [String c EmptyString]
           end
  end.

(** [parts.join(sep)] *)
Fixpoint join (sep : string) (parts : list string) : string :=
  match parts with
  | [] => EmptyString
  | [p] => p
  | p :: rest => p +:+ sep +:+ join sep rest
  end.

(** [parts.slice(1)] *)
Definition slice1 {A} (parts : list A) : list A := tail parts.

(** [s.includes(sub)]: substring containment. *)
Fixpoint includes (sub s : string) : bool :=
  String.prefix sub s ||
  match s with
  | EmptyString => false
  | String _ r => includes sub r
  end.

(** [arr.includes(x)] on an array of strings. *)
Definition array_includes (x : string) (arr : list string) : bool :=
  bool_decide (x ∈ arr).

(** The longest prefix of [s] without a line terminator: what [.+] or [.*]
    consumes greedily. *)
Fixpoint dot_run (s : string) : string :=
  match s with
  | EmptyString => EmptyString
  | String c r => if is_line_terminator c then EmptyString else String c (dot_run r)
  end.

(** Drop [n] code units. *)
Fixpoint drop_string (n : nat) (s : string) : string :=
  match n, s with
  | O, _ => s
  | S n', String _ r => drop_string n' r
  | S _, EmptyString => EmptyString
  end.

(** [s.match(/lit(.+)/)] for a literal [lit]: the first capture group of the
    leftmost match, or [None] for JavaScript's [null].  The leftmost position
    where [lit] is followed by at least one code unit that is no line
    terminator wins; the group then runs up to the next line terminator. *)
Fixpoint match_literal_dot_plus (lit s : string) : option string :=
  let here :=
    if String.prefix lit s
    then match dot_run (drop_string (String.length lit) s) with
         | EmptyString => None
         | g => Some g
         end
    else None in
  match here with
  | Some g => Some g
  | None => match s with
            | EmptyString => None
            | String _ r => match_literal_dot_plus lit r
            end
  end.

(** [Boolean(v)] for a value that is a string or [null] ([None]): only the
    non-empty strings are truthy. *)
Definition Boolean (v : option string) : bool :=
  match v with
  | Some s => negb (is_empty s)
  | None => false
  end.

End JS.

(** ** Exceptions, the outside world and the monad of the module's functions *)

(** A thrown JavaScript [Error]; the module only ever reads its [message]. *)
Record Error : Type := { message : string }.

(** How the evaluation of a function body ends. *)
Inductive completion (A : Type) : Type :=
  | Normal (a : A)
  | Throw (e : Error).
Arguments Normal {A} a.
Arguments Throw {A} e.

(** A computation over the world [W]: it steps the world and completes. *)
Definition exec (W A : Type) : Type := W -> W * completion A.

Definition ret {W A} (a : A) : exec W A := fun w => (w, Normal a).

Definition bind {W A B} (m : exec W A) (k : A -> exec W B) : exec W B :=
  fun w =>
    match m w with
    | (w', Normal a) => k a w'
    | (w', Throw e) => (w', Throw e)
    end.

(** [try { body } catch (e) { handler }] *)
Definition try_catch {W A} (body : exec W A) (handler : Error -> exec W A) : exec W A :=
  fun w =>
    match body w with
    | (w', Normal a) => (w', Normal a)
    | (w', Throw e) => handler e w'
    end.

Declare Scope exec_scope.
Delimit Scope exec_scope with exec.
Notation "x <- m ;; k" := (bind m (fun x => k))
  (at level 100, m at next level, right associativity) : exec_scope.

(** [m] started in [w] completes normally with [v], leaving the world [w']. *)
Definition returns {W A} (m : exec W A) (w : W) (v : A) (w' : W) : Prop :=
  m w = (w', Normal v).

(** ** The module [branch-manager.js] *)
Module BranchManager.

(** [{remote, branch, fullName}] of [listRemoteBranches]. *)
Record RemoteBranch : Type :=
  { remote : string; branch : string; fullName : string }.

(** [{success, error?}] of the deletion functions: [error] is absent
    ([None]) on success. *)
Record DeleteResult : Type := { success : bool; error : option string }.

(** The [options] object of [getBranchesToClean], defaults resolved. *)
Record Options : Type :=
  { cwd : string; protect : list string; includeRemote : bool }.

(** [{local, remote}] returned by [getBranchesToClean]. *)
Module ToClean.
Record t : Type := { local : list string; remote : list RemoteBranch }.
End ToClean.

(** The bindings of the body of [getBranchesToClean]. *)
Record CleanupLocals : Type :=
  { defaultBranch : string;
    currentBranch : option string;
    protectedBranches : gset (option string);
    allLocal : list string;
    localToClean : list string;
    remoteToClean : list RemoteBranch }.

(** A piece of command line between double quotes. *)
Definition quoted (s : string) : string :=
  String JS.DQUOTE s +:+ String JS.DQUOTE EmptyString.

Definition format_short : string := "--format=" +:+ quoted "%(refname:short)".

Definition cmd_rev_parse : string := "git rev-parse --git-dir".
Definition cmd_symbolic_ref : string :=
  "git symbolic-ref refs/remotes/origin/HEAD 2>/dev/null".
Definition cmd_branch_all : string := "git branch -a".
Definition cmd_show_current : string := "git branch --show-current".
Definition cmd_branch_list : string := "git branch " +:+ format_short.
Definition cmd_branch_remote : string := "git branch -r " +:+ format_short.
Definition cmd_branch_merged (defaultBranch : string) : string :=
  "git branch --merged " +:+ defaultBranch +:+ " " +:+ format_short.
Definition cmd_branch_delete (flag branch : string) : string :=
  "git branch " +:+ flag +:+ " " +:+ quoted branch.
Definition cmd_push_delete (remote branch : string) : string :=
  "git push " +:+ remote +:+ " --delete " +:+ quoted branch.

(** [protectedBranches.has(branch)] *)
Definition has (s : gset (option string)) (branch : string) : bool :=
  bool_decide (Some branch ∈ s).

Section WithExecSync.
Context {W : Type}.
(** [execSync(command, {cwd, ...})]: the captured standard output, or a
    throw when the process fails. *)
Variable execSync : string -> string -> exec W string.

Local Open Scope exec_scope.

Definition isGitRepo (cwd : string) : exec W bool :=
  try_catch
    (_ <- execSync cmd_rev_parse cwd ;; ret true)
    (fun _ => ret false).

(** The first [try] block of [getDefaultBranch]: [Some b] when it returns
    [b], [None] when control falls through. *)
Definition defaultBranch_from_origin (cwd : string) : exec W (option string) :=
  try_catch
    (out <- execSync cmd_symbolic_ref cwd ;;
     let result := JS.trim out in
     ret (JS.match_literal_dot_plus "refs/remotes/origin/" result))
    (fun _ => ret None).

(** The second [try] block of [getDefaultBranch]. *)
Definition defaultBranch_from_listing (cwd : string) : exec W (option string) :=
  try_catch
    (branches <- execSync cmd_branch_all cwd ;;
     if JS.includes "main" branches then ret (Some "main")
     else if JS.includes "master" branches then ret (Some "master")
     else ret None)
    (fun _ => ret None).

Definition getDefaultBranch (cwd : string) : exec W string :=
  r <- defaultBranch_from_origin cwd ;;
  match r with
  | Some b => ret b
  | None =>
      r <- defaultBranch_from_listing cwd ;;
      match r with
      | Some b => ret b
      | None => ret "main"
      end
  end.

Definition getCurrentBranch (cwd : string) : exec W (option string) :=
  try_catch
    (out <- execSync cmd_show_current cwd ;; ret (Some (JS.trim out)))
    (fun _ => ret None).

Definition listLocalBranches (cwd : string) : exec W (list string) :=
  try_catch
    (output <- execSync cmd_branch_list cwd ;;
     ret (filter (fun b => negb (JS.is_empty b))
            (map JS.trim (JS.split JS.LF output))))
    (fun _ => ret []).

(** The callback of the last [map] of [listRemoteBranches]; [parts[0]] is
    always there because [split] never returns the empty array. *)
Definition parseRemoteBranch (fullName : string) : RemoteBranch :=
  let parts := JS.split JS.SLASH fullName in
  {| remote := hd EmptyString parts;
     branch := JS.join "/" (JS.slice1 parts);
     fullName := fullName |}.

Definition listRemoteBranches (cwd : string) : exec W (list RemoteBranch) :=
  try_catch
    (output <- execSync cmd_branch_remote cwd ;;
     ret (map parseRemoteBranch
            (filter (fun b => negb (JS.is_empty b) && negb (JS.includes "HEAD" b))
               (map JS.trim (JS.split JS.LF output)))))
    (fun _ => ret []).

Definition isBranchMerged (branch cwd : string) : exec W bool :=
  try_catch
    (defaultBranch <- getDefaultBranch cwd ;;
     output <- execSync (cmd_branch_merged defaultBranch) cwd ;;
     ret (JS.array_includes branch (JS.split JS.LF output)))
    (fun _ => ret false).

Definition deleteLocalBranch (branch cwd : string) (force : bool)
  : exec W DeleteResult :=
  try_catch
    (let flag := if force then "-D" else "-d" in
     _ <- execSync (cmd_branch_delete flag branch) cwd ;;
     ret {| success := true; error := None |})
    (fun e => ret {| success := false; error := Some (message e) |}).

Definition deleteRemoteBranch (remote branch cwd : string)
  : exec W DeleteResult :=
  try_catch
    (_ <- execSync (cmd_push_delete remote branch) cwd ;;
     ret {| success := true; error := None |})
    (fun e => ret {| success := false; error := Some (message e) |}).

(** [new Set([defaultBranch, currentBranch, ...protect].filter(Boolean))] *)
Definition buildProtected (defaultBranch : string) (currentBranch : option string)
    (protect : list string) : gset (option string) :=
  list_to_set
    (filter (fun v => JS.Boolean v)
       (Some defaultBranch :: currentBranch :: map Some protect)).

(** The body of [getBranchesToClean] up to its [return]. *)
Definition getBranchesToClean_locals (options : Options) : exec W CleanupLocals :=
  let cwd := cwd options in
  defaultBranch <- getDefaultBranch cwd ;;
  currentBranch <- getCurrentBranch cwd ;;
  let protectedBranches :=
    buildProtected defaultBranch currentBranch (protect options) in
  allLocal <- listLocalBranches cwd ;;
  let localToClean :=
    filter (fun branch => negb (has protectedBranches branch)) allLocal in
  remoteToClean <-
    (if includeRemote options
     then allRemote <- listRemoteBranches cwd ;;
          ret (filter (fun r => negb (has protectedBranches (branch r))) allRemote)
     else ret []) ;;
  ret {| defaultBranch := defaultBranch;
         currentBranch := currentBranch;
         protectedBranches := protectedBranches;
         allLocal := allLocal;
         localToClean := localToClean;
         remoteToClean := remoteToClean |}.

Definition getBranchesToClean (options : Options) : exec W ToClean.t :=
  st <- getBranchesToClean_locals options ;;
  ret {| ToClean.local := localToClean st;
         ToClean.remote := remoteToClean st |}.

End WithExecSync.

End BranchManager.

(** ** A model of the version-control tool behind [execSync]

    The source only builds command lines; what they do is git's business.
    This module models the nine command lines the source issues, after the
    documented behaviour of git, on repositories that consist of local
    branches, remote-tracking branches, a HEAD and a commit graph.  Branches
    have no upstream configured, so a safe deletion compares with HEAD.  The
    shell is modelled for double-quoted words without expansions; a command
    line outside that fragment fails.

    Outside the model: what the shell makes of [$], backquotes, quotes and
    operators inside a name, names that start with [-], a local branch named
    like a remote-tracking ref (which git lists with a [heads/] prefix), and
    branches with an upstream.  The general statements of this file use the
    model only through the command lines that hold no name. *)
Module Git.

Definition commit : Type := nat.

(** HEAD is attached to a branch, or detached at a commit that the listings
    describe as [described]. *)
Inductive head_ref : Type :=
  | Attached (name : string)
  | Detached (c : commit) (described : string).

Record repo : Type :=
  { HEAD : head_ref;
    (** [refs/heads/*] in listing order, each with its tip *)
    heads : list (string * commit);
    (** [refs/remotes/*] by short name, such as [origin/main] *)
    remotes : list (string * commit);
    (** the branch that [refs/remotes/origin/HEAD] points to, when set *)
    origin_HEAD : option string;
    (** [ancestor a b]: commit [a] is a proper ancestor of commit [b] *)
    ancestor : commit -> commit -> bool }.

(** The working directories that are inside a repository. *)
Abbreviation world := (gmap string repo).

Definition nl : string := String JS.LF EmptyString.

Fixpoint lookup_ref (name : string) (refs : list (string * commit)) : option commit :=
  match refs with
  | [] => None
  | (n, c) :: rest => if String.eqb n name then Some c else lookup_ref name rest
  end.

Definition remove_ref (name : string) (refs : list (string * commit))
  : list (string * commit) :=
  filter (fun p => negb (String.eqb (fst p) name)) refs.

(** The commit HEAD resolves to; none on an unborn branch. *)
Definition head_commit (r : repo) : option commit :=
  match HEAD r with
  | Attached n => lookup_ref n (heads r)
  | Detached c _ => Some c
  end.

(** [a] is reachable from [b]. *)
Definition reachable (r : repo) (a b : commit) : bool :=
  Nat.eqb a b || ancestor r a b.

(** The branch [name] is merged into the current checkout. *)
Definition merged_into_head (r : repo) (name : string) : bool :=
  match lookup_ref name (heads r), head_commit r with
  | Some t, Some h => reachable r t h
  | _, _ => false
  end.

Definition is_current (r : repo) (name : string) : bool :=
  match HEAD r with
  | Attached n => String.eqb n name
  | Detached _ _ => false
  end.

(** *** Command lines *)

Inductive command : Type :=
  | RevParseGitDir
  | SymbolicRefOriginHead
  | BranchAll
  | BranchShowCurrent
  | BranchList
  | BranchListRemote
  | BranchMerged (rev : string)
  | BranchDelete (force : bool) (name : string)
  | PushDelete (remote name : string).

Fixpoint strip_prefix (p s : string) : option string :=
  match p, s with
  | EmptyString, _ => Some s
  | String a p', String b s' => if Ascii.eqb a b then strip_prefix p' s' else None
  | String _ _, EmptyString => None
  end.

(** Characters that the shell treats specially between double quotes. *)
Definition shell_special (c : ascii) : bool :=
  match c with
  | "034" | "$" | "`" | "\" => true
  | _ => false
  end%char.

(** The rest of a double-quoted word after its opening quote, which must end
    the command line. *)
Fixpoint read_quoted (s : string) : option string :=
  match s with
  | EmptyString => None
  | String c r =>
      if Ascii.eqb c JS.DQUOTE then (if JS.is_empty r then Some EmptyString else None)
      else if shell_special c then None
      else String c <$> read_quoted r
  end.

Definition unquote (s : string) : option string :=
  match s with
  | String c r => if Ascii.eqb c JS.DQUOTE then read_quoted r else None
  | EmptyString => None
  end.

(** A bare word up to the next space, and what follows the space. *)
Fixpoint read_word (s : string) : option (string * string) :=
  match s with
  | EmptyString => None
  | String c r =>
      if Ascii.eqb c " " then Some (EmptyString, r)
      else '(w, rest) ← read_word r; Some (String c w, rest)
  end.

Definition parse_branch (args : string) : option command :=
  match strip_prefix "-d " args, strip_prefix "-D " args,
        strip_prefix "--merged " args with
  | Some arg, _, _ => BranchDelete false <$> unquote arg
  | _, Some arg, _ => BranchDelete true <$> unquote arg
  | _, _, Some arg =>
      '(rev, rest) ← read_word arg;
      if String.eqb rest BranchManager.format_short then Some (BranchMerged rev) else None
  | None, None, None =>
      if String.eqb args "-a" then Some BranchAll
      else if String.eqb args "--show-current" then Some BranchShowCurrent
      else if String.eqb args BranchManager.format_short then Some BranchList
      else if String.eqb args ("-r " +:+ BranchManager.format_short)
           then Some BranchListRemote
      else None
  end.

Definition parse_push (args : string) : option command :=
  '(remote, rest) ← read_word args;
  arg ← strip_prefix "--delete " rest;
  PushDelete remote <$> unquote arg.

Definition parse (cmd : string) : option command :=
  match strip_prefix "git branch " cmd, strip_prefix "git push " cmd with
  | Some args, _ => parse_branch args
  | _, Some args => parse_push args
  | None, None =>
      if String.eqb cmd BranchManager.cmd_rev_parse then Some RevParseGitDir
      else if String.eqb cmd BranchManager.cmd_symbolic_ref
           then Some SymbolicRefOriginHead
      else None
  end.

(** *** Output *)

Definition lines (l : list string) : string :=
  foldr (fun line out => line +:+ nl +:+ out) EmptyString l.

(** The entry that branch listings show for a detached HEAD. *)
Definition detached_entry (r : repo) : list string :=
  match HEAD r with
  | Attached _ => []
  | Detached _ described => ["(HEAD detached at " +:+ described +:+ ")"]
  end.

(** What [git branch --format=%(refname:short)] lists: the local branches,
    after the entry for a detached HEAD when there is one. *)
Definition short_names (r : repo) : list string :=
  detached_entry r ++ map fst (heads r).

(** The lines of [git branch -a]. *)
Definition all_entries (r : repo) : list string :=
  map (fun e => "* " +:+ e) (detached_entry r)
  ++ map (fun p => (if is_current r (fst p) then "* " else "  ") +:+ fst p) (heads r)
  ++ match origin_HEAD r with
     | Some b => ["  remotes/origin/HEAD -> origin/" +:+ b]
     | None => []
     end
  ++ map (fun p => "  remotes/" +:+ fst p) (remotes r).

(** What [git branch -r --format=%(refname:short)] lists: the symbolic ref
    [origin/HEAD] when it is set, and the remote-tracking branches. *)
Definition remote_short_names (r : repo) : list string :=
  match origin_HEAD r with Some _ => ["origin/HEAD"] | None => [] end
  ++ map fst (remotes r).

(** A revision names a local branch, or else a remote-tracking branch. *)
Definition resolve (r : repo) (rev : string) : option commit :=
  match lookup_ref rev (heads r) with
  | Some c => Some c
  | None => lookup_ref rev (remotes r)
  end.

(** What [git branch --merged] lists for a target commit: the entries of
    [short_names] whose commit is reachable from the target. *)
Definition merged_names (r : repo) (target : commit) : list string :=
  match HEAD r with
  | Detached c described =>
      if reachable r c target
      then ["(HEAD detached at " +:+ described +:+ ")"] else []
  | Attached _ => []
  end
  ++ map fst (filter (fun p => reachable r (snd p) target) (heads r)).

(** The exception of [execSync] for a process that failed. *)
Definition failed (cmd stderr : string) : Error :=
  {| message := "Command failed: " +:+ cmd +:+ nl +:+ stderr |}.

Definition with_heads (r : repo) (hs : list (string * commit)) : repo :=
  {| HEAD := HEAD r; heads := hs; remotes := remotes r;
     origin_HEAD := origin_HEAD r; ancestor := ancestor r |}.

Definition with_remotes (r : repo) (rs : list (string * commit)) : repo :=
  {| HEAD := HEAD r; heads := heads r; remotes := rs;
     origin_HEAD := origin_HEAD r; ancestor := ancestor r |}.

(** One command on one repository: the repository afterwards, and the
    standard output or the standard error of a failure. *)
Definition run (c : command) (r : repo) : repo * (string + string) :=
  match c with
  | RevParseGitDir => (r, inl (".git" +:+ nl))
  | SymbolicRefOriginHead =>
      match origin_HEAD r with
      | Some b => (r, inl ("refs/remotes/origin/" +:+ b +:+ nl))
      | None => (r, inr "fatal: ref refs/remotes/origin/HEAD is not a symbolic ref")
      end
  | BranchAll => (r, inl (lines (all_entries r)))
  | BranchShowCurrent =>
      match HEAD r with
      | Attached n => (r, inl (n +:+ nl))
      | Detached _ _ => (r, inl EmptyString)
      end
  | BranchList => (r, inl (lines (short_names r)))
  | BranchListRemote => (r, inl (lines (remote_short_names r)))
  | BranchMerged rev =>
      match resolve r rev with
      | Some target => (r, inl (lines (merged_names r target)))
      | None => (r, inr ("error: malformed object name " +:+ rev))
      end
  | BranchDelete force name =>
      match lookup_ref name (heads r) with
      | None => (r, inr ("error: branch '" +:+ name +:+ "' not found"))
      | Some _ =>
          if is_current r name
          then (r, inr ("error: cannot delete branch '" +:+ name +:+ "' used by worktree"))
          else if force || merged_into_head r name
          then (with_heads r (remove_ref name (heads r)),
                inl ("Deleted branch " +:+ name +:+ "." +:+ nl))
          else (r, inr ("error: the branch '" +:+ name +:+ "' is not fully merged"))
      end
  | PushDelete remote name =>
      let ref := remote +:+ "/" +:+ name in
      match lookup_ref ref (remotes r) with
      | None => (r, inr ("error: unable to delete '" +:+ name
                           +:+ "': remote ref does not exist"))
      | Some _ => (with_remotes r (remove_ref ref (remotes r)), inl EmptyString)
      end
  end.

(** [execSync] over the model: the command runs in the repository that the
    working directory is inside. *)
Definition execSync (cmd cwd : string) : exec world string :=
  fun w =>
    match w !! cwd with
    | None => (w, Throw (failed cmd "fatal: not a git repository"))
    | Some r =>
        match parse cmd with
        | None => (w, Throw (failed cmd "sh: command not supported"))
        | Some c =>
            match run c r with
            | (r', inl out) => (<[cwd := r']> w, Normal out)
            | (r', inr err) => (<[cwd := r']> w, Throw (failed cmd err))
            end
        end
    end.

(** Branch names the model's shell passes through unchanged: not empty, no
    white space, nothing special between double quotes. *)
Definition name_char (c : ascii) : bool :=
  negb (JS.is_white_space c) && negb (shell_special c).

Fixpoint all_chars (p : ascii -> bool) (s : string) : bool :=
  match s with
  | EmptyString => true
  | String c r => p c && all_chars p r
  end.

Definition valid_name (n : string) : bool :=
  negb (JS.is_empty n) && all_chars name_char n.

(** A repository whose local branch names are valid, as is the description
    of a detached HEAD. *)
Definition well_formed (r : repo) : bool :=
  forallb (fun p => valid_name (fst p)) (heads r)
  && match HEAD r with
     | Attached _ => true
     | Detached _ described => valid_name described
     end.

End Git.

(** ** A recorded session behind [execSync]

    The exchanges of one session with the shell, in order: each command line
    with the standard output it gave, or with the message of the error that
    [execSync] threw for it.  Replaying the session answers each call with
    the recorded exchange; a command line that differs from the record
    throws. *)
Module Transcript.

Definition exchange : Type := string * (string + string).

(** The exchanges still to come. *)
Definition session : Type := list exchange.

Definition execSync (cmd cwd : string) : exec session string :=
  fun s =>
    match s with
    | (recorded, answer) :: rest =>
        if String.eqb recorded cmd
        then (rest, match answer with
                    | inl out => Normal out
                    | inr msg => Throw {| message := msg |}
                    end)
        else (s, Throw {| message := "not in the session: " +:+ cmd |})
    | [] => (s, Throw {| message := "not in the session: " +:+ cmd |})
    end.

End Transcript.

(** ** Repositories used as examples *)
Module Scenario.

Definition dir : string := "/work/repo".

(** A linear history 1 <- 2 <- 3: a commit is an ancestor of the later ones. *)
Definition linear (a b : Git.commit) : bool := Nat.ltb a b.

Definition in_dir (r : Git.repo) : Git.world := {[ dir := r ]}.

(** [main] checked out; [feature-delete] has a commit that [main] lacks. *)
Definition unmerged : Git.repo :=
  {| Git.HEAD := Git.Attached "main";
     Git.heads := [("feature-delete", 2); ("main", 1)];
     Git.remotes := [];
     Git.origin_HEAD := None;
     Git.ancestor := linear |}.

(** HEAD detached at the tip of [main]. *)
Definition detached : Git.repo :=
  {| Git.HEAD := Git.Detached 1 "abc1234";
     Git.heads := [("feature-1", 2); ("main", 1)];
     Git.remotes := [];
     Git.origin_HEAD := None;
     Git.ancestor := linear |}.

(** No remote; the branches are [mainline] and [master], and no [main]. *)
Definition mainline : Git.repo :=
  {| Git.HEAD := Git.Attached "master";
     Git.heads := [("mainline", 2); ("master", 1)];
     Git.remotes := [];
     Git.origin_HEAD := None;
     Git.ancestor := linear |}.

(** A remote branch whose name contains the letters HEAD. *)
Definition head_in_name : Git.repo :=
  {| Git.HEAD := Git.Attached "main";
     Git.heads := [("main", 1)];
     Git.remotes := [("origin/fix-HEAD-parsing", 2); ("origin/main", 1)];
     Git.origin_HEAD := None;
     Git.ancestor := linear |}.

(** Two remotes that both carry [feature-x]. *)
Definition two_remotes : Git.repo :=
  {| Git.HEAD := Git.Attached "main";
     Git.heads := [("feature-x", 2); ("main", 1); ("topic", 3)];
     Git.remotes := [("origin/feature-x", 2); ("origin/main", 1);
                     ("upstream/feature-x", 2); ("upstream/topic", 3)];
     Git.origin_HEAD := Some "main";
     Git.ancestor := linear |}.

(** [main] checked out, three more branches at the same commit. *)
Definition feature_branches : Git.repo :=
  {| Git.HEAD := Git.Attached "main";
     Git.heads := [("feature-1", 1); ("feature-2", 1); ("hotfix-1", 1); ("main", 1)];
     Git.remotes := [];
     Git.origin_HEAD := None;
     Git.ancestor := linear |}.

(** [merged-branch] was merged into [main] by fast-forward; [unmerged-branch]
    has a commit of its own. *)
Definition merged_and_unmerged : Git.repo :=
  {| Git.HEAD := Git.Attached "main";
     Git.heads := [("main", 2); ("merged-branch", 2); ("unmerged-branch", 3)];
     Git.remotes := [];
     Git.origin_HEAD := None;
     Git.ancestor := linear |}.

(** [dev] checked out, with the commit of [feature] that [main] lacks. *)
Definition on_dev : Git.repo :=
  {| Git.HEAD := Git.Attached "dev";
     Git.heads := [("dev", 2); ("feature", 2); ("main", 1)];
     Git.remotes := [];
     Git.origin_HEAD := None;
     Git.ancestor := linear |}.

(** A clone whose remote names [release/2.x] as its HEAD. *)
Definition release_default : Git.repo :=
  {| Git.HEAD := Git.Attached "release/2.x";
     Git.heads := [("master", 1); ("release/2.x", 2)];
     Git.remotes := [("origin/master", 1); ("origin/release/2.x", 2)];
     Git.origin_HEAD := Some "release/2.x";
     Git.ancestor := linear |}.

(** A forced deletion of the unmerged branch [fix$HOME], then the listing of
    the local branches: the shell expands [$HOME] between the double quotes
    of the command line, and git finds no branch of the expanded name. *)
Definition dollar_name : Transcript.session :=
  [ (BranchManager.cmd_branch_delete "-D" "fix$HOME",
     inr ("Command failed: " +:+ BranchManager.cmd_branch_delete "-D" "fix$HOME"
          +:+ Git.nl +:+ "error: branch 'fix/root' not found." +:+ Git.nl));
    (BranchManager.cmd_branch_list,
     inl ("fix$HOME" +:+ Git.nl +:+ "main" +:+ Git.nl)) ].


(** A directory outside every repository. *)
Definition outside : string := "/tmp/not-a-repo".
Definition no_repository : Git.world := ∅.

End Scenario.

(** ** Vocabulary of the statements *)

(** From the world [w] on, every query in the directory [cwd] fails: [w] is
    in a set of worlds that failing queries do not leave. *)
Definition every_query_fails {W : Type} (execSync : string -> string -> exec W string)
    (cwd : string) (w : W) : Prop :=
  ∃ I : W -> Prop,
    I w ∧ ∀ cmd w0, I w0 → ∃ w1 e, execSync cmd cwd w0 = (w1, Throw e) ∧ I w1.

(** A deletion outcome is [{success: true}] or [{success: false, error}]. *)
Definition structured (res : BranchManager.DeleteResult) : Prop :=
  (BranchManager.success res = true ∧ BranchManager.error res = None)
  ∨ (BranchManager.success res = false ∧ ∃ msg, BranchManager.error res = Some msg).

Definition not_white_space (c : ascii) : bool := negb (JS.is_white_space c).
Definition not_LF (c : ascii) : bool := negb (Ascii.eqb c JS.LF).

(** A line that [split], [trim] and the filter of empty entries give back. *)
Definition clean_line (s : string) : Prop :=
  s ≠ EmptyString ∧ Git.all_chars not_LF s = true ∧ JS.trim s = s.

(** The commands of the model that only read the repository. *)
Definition read_only (c : Git.command) : bool :=
  match c with
  | Git.BranchDelete _ _ | Git.PushDelete _ _ => false
  | _ => true
  end.

(** The command lines that do not depend on any argument: the queries of the
    inspection functions other than [isBranchMerged]. *)
Definition fixed_queries : list string :=
  [ BranchManager.cmd_rev_parse; BranchManager.cmd_symbolic_ref;
    BranchManager.cmd_branch_all; BranchManager.cmd_show_current;
    BranchManager.cmd_branch_list; BranchManager.cmd_branch_remote ].

(** * Properties *)

Import BranchManager.

(** Case analysis on the next call that the body under evaluation makes. *)
Ltac next_call :=
  match goal with
  | |- context [match ?m with (_, _) => _ end] =>
      lazymatch m with
      | context [match _ with (_, _) => _ end] => fail
      | _ => idtac
      end;
      let w := fresh "w" in
      let out := fresh "out" in
      let e := fresh "e" in
      let E := fresh "E" in
      destruct m as [w [out | e]] eqn:E
  end.

Ltac unfold_exec := unfold returns, bind, try_catch, ret in *.

(** ** String facts *)

Lemma is_empty_true (s : string) : JS.is_empty s = true ↔ s = EmptyString.
Proof. destruct s; simpl; split; congruence. Qed.

Lemma is_empty_false (s : string) : JS.is_empty s = false ↔ s ≠ EmptyString.
Proof. destruct s; simpl; split; congruence. Qed.

Lemma Boolean_spec (v : option string) :
  JS.Boolean v = true ↔ ∃ s, v = Some s ∧ s ≠ EmptyString.
Proof.
  destruct v as [s|]; simpl.
  - rewrite negb_true_iff, is_empty_false. split.
    + intros H. exists s. auto.
    + intros (s' & [= <-] & H). exact H.
  - split; [discriminate | intros (s & [=] & _)].
Qed.

(** A capture group of [(.+)] is never empty. *)
Lemma match_literal_dot_plus_nonempty (lit s g : string) :
  JS.match_literal_dot_plus lit s = Some g → g ≠ EmptyString.
Proof.
  induction s as [|c r IH]; cbn [JS.match_literal_dot_plus].
  - destruct (String.prefix lit EmptyString); [|discriminate].
    destruct (JS.dot_run _); [discriminate|]. intros [= <-]. discriminate.
  - destruct (String.prefix lit (String c r)); [|exact IH].
    destruct (JS.dot_run _); [exact IH|]. intros [= <-]. discriminate.
Qed.

(** The primitives on the strings that the module meets. *)

Example split_trailing_newline :
  JS.split JS.LF ("main" +:+ Git.nl +:+ "feature-1" +:+ Git.nl)
  = ["main"; "feature-1"; EmptyString].
Proof. reflexivity. Qed.

Example trim_line : JS.trim ("  feature 1 " +:+ Git.nl) = "feature 1".
Proof. reflexivity. Qed.

Example includes_is_substring_containment :
  JS.includes "main" "mainline" = true ∧ JS.includes "HEAD" "origin/main" = false.
Proof. split; reflexivity. Qed.

Example match_symbolic_ref :
  JS.match_literal_dot_plus "refs/remotes/origin/" "refs/remotes/origin/release/1.x"
  = Some "release/1.x".
Proof. reflexivity. Qed.

Example match_needs_a_name :
  JS.match_literal_dot_plus "refs/remotes/origin/" "refs/remotes/origin/" = None.
Proof. reflexivity. Qed.

Example parse_nested_remote_branch :
  parseRemoteBranch "origin/feature/login/form"
  = {| remote := "origin"; branch := "feature/login/form";
       fullName := "origin/feature/login/form" |}.
Proof. reflexivity. Qed.

(** ** The inspection functions one call at a time *)
Section Calls.
Context {W : Type}.
Variable execSync : string -> string -> exec W string.

Lemma isGitRepo_call (cwd : string) (w : W) :
  isGitRepo execSync cwd w =
    match execSync cmd_rev_parse cwd w with
    | (w', Normal _) => (w', Normal true)
    | (w', Throw _) => (w', Normal false)
    end.
Proof. unfold isGitRepo. unfold_exec. next_call; reflexivity. Qed.

Lemma getCurrentBranch_call (cwd : string) (w : W) :
  getCurrentBranch execSync cwd w =
    match execSync cmd_show_current cwd w with
    | (w', Normal out) => (w', Normal (Some (JS.trim out)))
    | (w', Throw _) => (w', Normal None)
    end.
Proof. unfold getCurrentBranch. unfold_exec. next_call; reflexivity. Qed.

Lemma listLocalBranches_call (cwd : string) (w : W) :
  listLocalBranches execSync cwd w =
    match execSync cmd_branch_list cwd w with
    | (w', Normal output) =>
        (w', Normal (filter (fun b => negb (JS.is_empty b))
                       (map JS.trim (JS.split JS.LF output))))
    | (w', Throw _) => (w', Normal [])
    end.
Proof. unfold listLocalBranches. unfold_exec. next_call; reflexivity. Qed.

Lemma listRemoteBranches_call (cwd : string) (w : W) :
  listRemoteBranches execSync cwd w =
    match execSync cmd_branch_remote cwd w with
    | (w', Normal output) =>
        (w', Normal (map parseRemoteBranch
                       (filter (fun b => negb (JS.is_empty b) && negb (JS.includes "HEAD" b))
                          (map JS.trim (JS.split JS.LF output)))))
    | (w', Throw _) => (w', Normal [])
    end.
Proof. unfold listRemoteBranches. unfold_exec. next_call; reflexivity. Qed.

Lemma deleteLocalBranch_call (branch cwd : string) (force : bool) (w : W) :
  deleteLocalBranch execSync branch cwd force w =
    match execSync (cmd_branch_delete (if force then "-D" else "-d") branch) cwd w with
    | (w', Normal _) => (w', Normal {| success := true; error := None |})
    | (w', Throw e) => (w', Normal {| success := false; error := Some (message e) |})
    end.
Proof. unfold deleteLocalBranch. unfold_exec. next_call; reflexivity. Qed.

Lemma deleteRemoteBranch_call (remote branch cwd : string) (w : W) :
  deleteRemoteBranch execSync remote branch cwd w =
    match execSync (cmd_push_delete remote branch) cwd w with
    | (w', Normal _) => (w', Normal {| success := true; error := None |})
    | (w', Throw e) => (w', Normal {| success := false; error := Some (message e) |})
    end.
Proof. unfold deleteRemoteBranch. unfold_exec. next_call; reflexivity. Qed.

(** [getDefaultBranch] completes normally, with a name that is not empty. *)
Lemma getDefaultBranch_returns (cwd : string) (w : W) :
  ∃ d w', returns (getDefaultBranch execSync cwd) w d w' ∧ d ≠ EmptyString.
Proof.
  unfold getDefaultBranch, defaultBranch_from_origin, defaultBranch_from_listing.
  unfold_exec. next_call.
  - destruct (JS.match_literal_dot_plus _ _) as [g|] eqn:M.
    + exists g, w0. split; [reflexivity|].
      eapply match_literal_dot_plus_nonempty, M.
    + next_call.
      * destruct (JS.includes "main" out0); [|destruct (JS.includes "master" out0)];
          eexists _, _; (split; [reflexivity | discriminate]).
      * eexists _, _; (split; [reflexivity | discriminate]).
  - next_call.
    + destruct (JS.includes "main" out); [|destruct (JS.includes "master" out)];
        eexists _, _; (split; [reflexivity | discriminate]).
    + eexists _, _; (split; [reflexivity | discriminate]).
Qed.

(** When both of its queries fail, [getDefaultBranch] falls back to [main]. *)
Lemma getDefaultBranch_fallback (cwd : string) (w w1 w2 : W) (e1 e2 : Error) :
  execSync cmd_symbolic_ref cwd w = (w1, Throw e1) →
  execSync cmd_branch_all cwd w1 = (w2, Throw e2) →
  returns (getDefaultBranch execSync cwd) w "main" w2.
Proof.
  intros E1 E2.
  unfold getDefaultBranch, defaultBranch_from_origin, defaultBranch_from_listing.
  unfold_exec. rewrite E1, E2. reflexivity.
Qed.

(** [isBranchMerged] is decided by one listing, asked for the default branch
    in the world that resolving the default branch leaves. *)
Lemma isBranchMerged_call (branch cwd : string) (w w1 : W) (d : string) :
  returns (getDefaultBranch execSync cwd) w d w1 →
  isBranchMerged execSync branch cwd w =
    match execSync (cmd_branch_merged d) cwd w1 with
    | (w2, Normal output) =>
        (w2, Normal (JS.array_includes branch (JS.split JS.LF output)))
    | (w2, Throw _) => (w2, Normal false)
    end.
Proof.
  intros D. unfold isBranchMerged. unfold returns in D.
  unfold bind at 1. unfold try_catch. unfold bind at 1. rewrite D.
  unfold bind, ret. next_call; reflexivity.
Qed.

End Calls.

(** ** Planning the cleanup, call by call *)
Section Planning.
Context {W : Type}.
Variable execSync : string -> string -> exec W string.

Lemma bind_returns {A B} (m : exec W A) (k : A -> exec W B) (w w1 : W) (a : A) :
  returns m w a w1 → bind m k w = k a w1.
Proof. unfold returns, bind. intros ->. reflexivity. Qed.

Lemma getCurrentBranch_returns (cwd : string) (w : W) :
  ∃ c w', returns (getCurrentBranch execSync cwd) w c w'.
Proof.
  unfold returns. rewrite getCurrentBranch_call.
  destruct (execSync cmd_show_current cwd w) as [w' [out|e]]; eauto.
Qed.

Lemma listLocalBranches_returns (cwd : string) (w : W) :
  ∃ ls w', returns (listLocalBranches execSync cwd) w ls w'.
Proof.
  unfold returns. rewrite listLocalBranches_call.
  destruct (execSync cmd_branch_list cwd w) as [w' [out|e]]; eauto.
Qed.

Lemma listRemoteBranches_returns (cwd : string) (w : W) :
  ∃ rs w', returns (listRemoteBranches execSync cwd) w rs w'.
Proof.
  unfold returns. rewrite listRemoteBranches_call.
  destruct (execSync cmd_branch_remote cwd w) as [w' [out|e]]; eauto.
Qed.

(** The run of [getBranchesToClean]: the four inspections in source order,
    each in the world the one before left, and the bindings they produce. *)
Lemma getBranchesToClean_locals_trace (options : Options) (w : W) :
  ∃ d w1 c w2 ls w3 rs w4,
    returns (getDefaultBranch execSync (cwd options)) w d w1 ∧
    d ≠ EmptyString ∧
    returns (getCurrentBranch execSync (cwd options)) w1 c w2 ∧
    returns (listLocalBranches execSync (cwd options)) w2 ls w3 ∧
    (if includeRemote options
     then returns (listRemoteBranches execSync (cwd options)) w3 rs w4
     else rs = [] ∧ w4 = w3) ∧
    returns (getBranchesToClean_locals execSync options) w
      {| defaultBranch := d;
         currentBranch := c;
         protectedBranches := buildProtected d c (protect options);
         allLocal := ls;
         localToClean :=
           filter (fun b => negb (has (buildProtected d c (protect options)) b)) ls;
         remoteToClean :=
           filter (fun r => negb (has (buildProtected d c (protect options)) (branch r)))
             rs |} w4.
Proof.
  destruct (getDefaultBranch_returns execSync (cwd options) w) as (d & w1 & Hd & Hne).
  destruct (getCurrentBranch_returns (cwd options) w1) as (c & w2 & Hc).
  destruct (listLocalBranches_returns (cwd options) w2) as (ls & w3 & Hl).
  destruct (includeRemote options) eqn:Hinc.
  - destruct (listRemoteBranches_returns (cwd options) w3) as (rs & w4 & Hr).
    exists d, w1, c, w2, ls, w3, rs, w4. repeat split; try assumption.
    unfold returns, getBranchesToClean_locals. rewrite Hinc.
    rewrite (bind_returns _ _ _ _ _ Hd), (bind_returns _ _ _ _ _ Hc),
      (bind_returns _ _ _ _ _ Hl).
    unfold bind at 1. rewrite (bind_returns _ _ _ _ _ Hr). reflexivity.
  - exists d, w1, c, w2, ls, w3, [], w3. repeat split; try assumption.
    unfold returns, getBranchesToClean_locals. rewrite Hinc.
    rewrite (bind_returns _ _ _ _ _ Hd), (bind_returns _ _ _ _ _ Hc),
      (bind_returns _ _ _ _ _ Hl).
    reflexivity.
Qed.

Lemma getBranchesToClean_of_locals (options : Options) (w w' : W) (st : CleanupLocals) :
  returns (getBranchesToClean_locals execSync options) w st w' →
  returns (getBranchesToClean execSync options) w
    {| ToClean.local := localToClean st; ToClean.remote := remoteToClean st |} w'.
Proof.
  intros H. unfold returns, getBranchesToClean.
  rewrite (bind_returns _ _ _ _ _ H). reflexivity.
Qed.

End Planning.

(** ** The protected set *)

Lemma elem_of_buildProtected (d : string) (c : option string) (protect : list string)
    (v : option string) :
  v ∈ buildProtected d c protect ↔
    (v = Some d ∨ v = c ∨ ∃ p, p ∈ protect ∧ v = Some p)
    ∧ v ≠ None ∧ v ≠ Some EmptyString.
Proof.
  unfold buildProtected.
  rewrite elem_of_list_to_set, list_elem_of_filter, !elem_of_cons.
  rewrite Is_true_true, Boolean_spec, list_elem_of_In, in_map_iff.
  setoid_rewrite <- list_elem_of_In.
  split.
  - intros ((s & -> & Hs) & H). split; [|split; congruence].
    destruct H as [H | [H | (p & Hp & Hin)]]; eauto.
  - intros (H & Hn & He). split.
    + destruct v as [s|]; [|congruence]. exists s. split; congruence.
    + destruct H as [H | [H | (p & Hin & Hp)]]; eauto.
Qed.

Lemma has_spec (s : gset (option string)) (b : string) :
  negb (has s b) = true ↔ Some b ∉ s.
Proof.
  unfold has. rewrite negb_true_iff, bool_decide_eq_false. reflexivity.
Qed.

Lemma filter_not_has {A : Type} (s : gset (option string)) (name : A -> string) (l : list A) :
  filter (fun x => negb (has s (name x))) l = filter (fun x => Some (name x) ∉ s) l.
Proof.
  apply list_filter_iff. intros x. rewrite Is_true_true. apply has_spec.
Qed.

(** A name is outside the protected set iff it is empty, or it is neither the
    default branch, nor the current branch, nor one of the extra names. *)
Lemma not_protected_iff (d : string) (c : option string) (protect : list string)
    (b : string) :
  Some b ∉ buildProtected d c protect ↔
    b = EmptyString ∨ (b ≠ d ∧ c ≠ Some b ∧ b ∉ protect).
Proof.
  rewrite elem_of_buildProtected. split.
  - intros Hnot. destruct (decide (b = EmptyString)) as [|Hne]; [auto|]. right.
    repeat split; intros H; apply Hnot;
      (split; [|split; [discriminate | congruence]]).
    + left. congruence.
    + right. left. congruence.
    + right. right. eauto.
  - intros [-> | (Hd & Hc & Hp)] (H & _ & Hne); [congruence|].
    destruct H as [H | [H | (p & Hin & H)]].
    + apply Hd. congruence.
    + apply Hc. congruence.
    + apply Hp. congruence.
Qed.

Lemma filter_ext_in {A : Type} (P Q : A -> Prop)
    `{∀ x, Decision (P x)} `{∀ x, Decision (Q x)} (l : list A) :
  (∀ x, x ∈ l → (P x ↔ Q x)) → filter P l = filter Q l.
Proof.
  induction l as [|x l IH]; intros Hext; [reflexivity|].
  rewrite !filter_cons.
  assert (Hl : filter P l = filter Q l).
  { apply IH. intros y Hy. apply Hext, list_elem_of_further, Hy. }
  pose proof (Hext x (list_elem_of_here x l)) as Hx.
  destruct (decide (P x)), (decide (Q x)); rewrite ?Hl; tauto.
Qed.

(** No entry of [listLocalBranches] is empty. *)
Lemma listLocalBranches_nonempty {W : Type}
    (execSync : string -> string -> exec W string) (cwd : string) (w w' : W)
    (ls : list string) :
  returns (listLocalBranches execSync cwd) w ls w' →
  ∀ b, b ∈ ls → b ≠ EmptyString.
Proof.
  unfold returns. rewrite listLocalBranches_call.
  destruct (execSync cmd_branch_list cwd w) as [w0 [out|e]]; intros [= <- <-] b Hb.
  - apply list_elem_of_filter in Hb as [Hne _].
    apply Is_true_true, negb_true_iff, is_empty_false in Hne. exact Hne.
  - inversion Hb.
Qed.

(** ** The cleanup plan *)

(** C3, as amended: the plan of [getBranchesToClean] is made from the default
    and the current branch as the two inspections return them; its protected
    set is the default branch, the current branch and the extra protected
    names, without [null] and without the empty string; no local candidate is
    protected; the default branch is protected; and the current branch is
    protected whenever it is neither [null] nor the empty string. *)
Theorem cleanup_plan_invariants {W : Type} (execSync : string -> string -> exec W string)
    (options : Options) (w : W) :
  ∃ st w' w1 w2,
    returns (getBranchesToClean_locals execSync options) w st w' ∧
    returns (getBranchesToClean execSync options) w
      {| ToClean.local := localToClean st; ToClean.remote := remoteToClean st |} w' ∧
    returns (getDefaultBranch execSync (cwd options)) w (defaultBranch st) w1 ∧
    returns (getCurrentBranch execSync (cwd options)) w1 (currentBranch st) w2 ∧
    (∀ v, v ∈ protectedBranches st ↔
       (v = Some (defaultBranch st) ∨ v = currentBranch st
        ∨ ∃ p, p ∈ protect options ∧ v = Some p)
       ∧ v ≠ None ∧ v ≠ Some EmptyString) ∧
    (∀ b, b ∈ localToClean st → Some b ∉ protectedBranches st) ∧
    Some (defaultBranch st) ∈ protectedBranches st ∧
    (∀ b, currentBranch st = Some b → b ≠ EmptyString →
       Some b ∈ protectedBranches st).
Proof.
  destruct (getBranchesToClean_locals_trace execSync options w)
    as (d & w1 & c & w2 & ls & w3 & rs & w4 & Hd & Hne & Hc & Hl & Hr & Hst).
  eexists _, w4, w1, w2.
  split; [exact Hst|].
  split; [exact (getBranchesToClean_of_locals execSync options w w4 _ Hst)|].
  cbn [defaultBranch currentBranch protectedBranches localToClean].
  split; [exact Hd|]. split; [exact Hc|].
  split; [intros v; apply elem_of_buildProtected|].
  split; [|split].
  - intros b Hb. rewrite filter_not_has in Hb.
    apply list_elem_of_filter in Hb. tauto.
  - apply elem_of_buildProtected. repeat split; [auto | discriminate | congruence].
  - intros b -> Hb. apply elem_of_buildProtected.
    repeat split; [auto | discriminate | congruence].
Qed.

(** C9: [getBranchesToClean] asks for the default branch, the current branch
    and the local branches, in that order, and its local candidates are the
    listing of [listLocalBranches] without the default branch, the current
    branch and the names of the protect list: a subsequence in the listing's
    order, holding exactly the listed names that are none of these, and
    without repetition when the listing has none. *)
Theorem local_candidates_ordered_subsequence {W : Type}
    (execSync : string -> string -> exec W string) (options : Options) (w : W) :
  ∃ d w1 c w2 ls w3 plan w',
    returns (getDefaultBranch execSync (cwd options)) w d w1 ∧
    returns (getCurrentBranch execSync (cwd options)) w1 c w2 ∧
    returns (listLocalBranches execSync (cwd options)) w2 ls w3 ∧
    returns (getBranchesToClean execSync options) w plan w' ∧
    ToClean.local plan
    = filter (fun b => b ≠ d ∧ c ≠ Some b ∧ b ∉ protect options) ls ∧
    sublist (ToClean.local plan) ls ∧
    (∀ b, b ∈ ToClean.local plan ↔
       b ∈ ls ∧ b ≠ d ∧ c ≠ Some b ∧ b ∉ protect options) ∧
    (NoDup ls → NoDup (ToClean.local plan)).
Proof.
  destruct (getBranchesToClean_locals_trace execSync options w)
    as (d & w1 & c & w2 & ls & w3 & rs & w4 & Hd & Hne & Hc & Hl & Hr & Hst).
  eexists d, w1, c, w2, ls, w3, _, w4.
  split; [exact Hd|]. split; [exact Hc|]. split; [exact Hl|].
  split; [exact (getBranchesToClean_of_locals execSync options w w4 _ Hst)|].
  cbn [ToClean.local localToClean].
  assert (Heq : filter (fun b => negb (has (buildProtected d c (protect options)) b)) ls
                = filter (fun b => b ≠ d ∧ c ≠ Some b ∧ b ∉ protect options) ls).
  { rewrite (filter_not_has _ (fun b => b)). apply filter_ext_in. intros b Hb.
    rewrite not_protected_iff.
    pose proof (listLocalBranches_nonempty execSync _ _ _ _ Hl b Hb). tauto. }
  rewrite Heq. split; [reflexivity|]. split; [apply sublist_filter|].
  split.
  - intros b. rewrite list_elem_of_filter. tauto.
  - apply NoDup_filter.
Qed.



(** C3, the claim as stated fails: with HEAD detached the current branch is
    the empty string, which is not [null], and it is not in the protected
    set. *)
Lemma detached_head_current_not_protected :
  ∃ st,
    returns (getBranchesToClean_locals Git.execSync
               {| cwd := Scenario.dir; protect := []; includeRemote := false |})
      (Scenario.in_dir Scenario.detached) st (Scenario.in_dir Scenario.detached) ∧
    currentBranch st = Some EmptyString ∧
    currentBranch st ≠ None ∧
    currentBranch st ∉ protectedBranches st.
Proof.
  exists {| defaultBranch := "main";
            currentBranch := Some EmptyString;
            protectedBranches := buildProtected "main" (Some EmptyString) [];
            allLocal := ["(HEAD detached at abc1234)"; "feature-1"; "main"];
            localToClean := ["(HEAD detached at abc1234)"; "feature-1"];
            remoteToClean := [] |}.
  split; [vm_compute; reflexivity|].
  cbn [currentBranch protectedBranches].
  split; [reflexivity|]. split; [discriminate|].
  rewrite elem_of_buildProtected. intros (_ & _ & H). congruence.
Qed.

(** ** Outside a repository *)

(** C10, as amended: where every query fails, [getBranchesToClean] returns
    no local and no remote candidate; the default branch is the fallback
    [main], the current branch is [null], and the protected set is [main]
    with the extra protected names that are not the empty string. *)
Theorem plan_outside_repository {W : Type}
    (execSync : string -> string -> exec W string) (options : Options) (w : W) :
  every_query_fails execSync (cwd options) w →
  ∃ st w',
    returns (getBranchesToClean execSync options) w
      {| ToClean.local := []; ToClean.remote := [] |} w' ∧
    returns (getBranchesToClean_locals execSync options) w st w' ∧
    defaultBranch st = "main" ∧
    currentBranch st = None ∧
    (∀ v, v ∈ protectedBranches st ↔
       v = Some "main" ∨ ∃ p, p ∈ protect options ∧ p ≠ EmptyString ∧ v = Some p).
Proof.
  intros (I & Hw & Hfail).
  destruct (Hfail cmd_symbolic_ref w Hw) as (w1 & e1 & E1 & H1).
  destruct (Hfail cmd_branch_all w1 H1) as (w2 & e2 & E2 & H2).
  destruct (Hfail cmd_show_current w2 H2) as (w3 & e3 & E3 & H3).
  destruct (Hfail cmd_branch_list w3 H3) as (w4 & e4 & E4 & H4).
  destruct (Hfail cmd_branch_remote w4 H4) as (w5 & e5 & E5 & H5).
  pose proof (getDefaultBranch_fallback execSync _ _ _ _ _ _ E1 E2) as Hd.
  assert (Hc : returns (getCurrentBranch execSync (cwd options)) w2 None w3).
  { unfold returns. rewrite getCurrentBranch_call, E3. reflexivity. }
  assert (Hl : returns (listLocalBranches execSync (cwd options)) w3 [] w4).
  { unfold returns. rewrite listLocalBranches_call, E4. reflexivity. }
  assert (Hr : returns (listRemoteBranches execSync (cwd options)) w4 [] w5).
  { unfold returns. rewrite listRemoteBranches_call, E5. reflexivity. }
  set (st := {| defaultBranch := "main"; currentBranch := None;
                protectedBranches := buildProtected "main" None (protect options);
                allLocal := []; localToClean := []; remoteToClean := [] |}).
  assert (Hst : ∃ w', returns (getBranchesToClean_locals execSync options) w st w').
  { unfold returns, getBranchesToClean_locals.
    rewrite (bind_returns _ _ _ _ _ Hd), (bind_returns _ _ _ _ _ Hc),
      (bind_returns _ _ _ _ _ Hl).
    destruct (includeRemote options).
    - unfold bind at 1. rewrite (bind_returns _ _ _ _ _ Hr). eexists. reflexivity.
    - eexists. reflexivity. }
  destruct Hst as (w' & Hst). exists st, w'.
  split; [exact (getBranchesToClean_of_locals execSync options w w' st Hst)|].
  split; [exact Hst|]. split; [reflexivity|]. split; [reflexivity|].
  intros v. cbn [protectedBranches st]. rewrite elem_of_buildProtected. split.
  - intros ([H | [H | (p & Hp & ->)]] & Hn & He); [auto | congruence |].
    right. exists p. repeat split; [assumption | congruence].
  - intros [-> | (p & Hp & Hne & ->)].
    + repeat split; [auto | discriminate | discriminate].
    + repeat split; [eauto | discriminate | congruence].
Qed.

Lemma outside_every_query_fails :
  every_query_fails Git.execSync Scenario.outside Scenario.no_repository.
Proof.
  exists (fun w => w = Scenario.no_repository). split; [reflexivity|].
  intros cmd w0 ->. eexists _, _. split; reflexivity.
Qed.

Lemma plan_outside_repository_witness :
  ∃ st w',
    returns (getBranchesToClean Git.execSync
               {| cwd := Scenario.outside; protect := ["release"]; includeRemote := true |})
      Scenario.no_repository {| ToClean.local := []; ToClean.remote := [] |} w' ∧
    (∀ v, v ∈ protectedBranches st ↔ v = Some "main" ∨ v = Some "release").
Proof.
  destruct (plan_outside_repository Git.execSync
              {| cwd := Scenario.outside; protect := ["release"]; includeRemote := true |}
              Scenario.no_repository outside_every_query_fails)
    as (st & w' & Hplan & _ & _ & _ & Hprot).
  exists st, w'. split; [exact Hplan|].
  intros v. rewrite Hprot. cbn [protect]. split.
  - intros [H | (p & Hp & _ & ->)]; [auto|].
    apply list_elem_of_singleton in Hp as ->. auto.
  - intros [H | ->]; [auto|]. right. exists "release".
    repeat split; [apply list_elem_of_singleton; reflexivity | discriminate].
Defined.

(** C10, the claim as stated fails: an empty string among the extra
    protected names is not in the protected set. *)
Lemma empty_extra_name_not_protected :
  ∃ st,
    returns (getBranchesToClean_locals Git.execSync
               {| cwd := Scenario.outside; protect := [EmptyString];
                  includeRemote := true |})
      Scenario.no_repository st Scenario.no_repository ∧
    (Some EmptyString ∉ protectedBranches st) ∧
    ¬ (∀ v, v ∈ protectedBranches st ↔
         v = Some "main" ∨ ∃ p, p ∈ [EmptyString] ∧ v = Some p).
Proof.
  exists {| defaultBranch := "main"; currentBranch := None;
            protectedBranches := buildProtected "main" None [EmptyString];
            allLocal := []; localToClean := []; remoteToClean := [] |}.
  split; [vm_compute; reflexivity|].
  cbn [protectedBranches].
  assert (Hnot : Some EmptyString ∉ buildProtected "main" None [EmptyString]).
  { rewrite elem_of_buildProtected. intros (_ & _ & H). congruence. }
  split; [exact Hnot|].
  intros H. apply Hnot, H. right. exists EmptyString.
  split; [apply list_elem_of_singleton|]; reflexivity.
Qed.

(** ** No operation raises *)

(** C8: whatever [execSync] does, each inspection function completes
    normally, with [false], the fallback, [null], the empty list or [false]
    when its query throws, and each deletion function completes normally with
    [{success: true}] when its command succeeds and with
    [{success: false, error}] carrying the message when it throws. *)
Theorem operations_never_raise {W : Type}
    (execSync : string -> string -> exec W string)
    (cwd branch remote : string) (force : bool) (w : W) :
  (∃ v w', returns (isGitRepo execSync cwd) w v w' ∧
     (∀ w1 e, execSync cmd_rev_parse cwd w = (w1, Throw e) → v = false)) ∧
  (∃ v w', returns (getDefaultBranch execSync cwd) w v w' ∧
     (∀ w1 e1 w2 e2, execSync cmd_symbolic_ref cwd w = (w1, Throw e1) →
        execSync cmd_branch_all cwd w1 = (w2, Throw e2) → v = "main")) ∧
  (∃ v w', returns (getCurrentBranch execSync cwd) w v w' ∧
     (∀ w1 e, execSync cmd_show_current cwd w = (w1, Throw e) → v = None)) ∧
  (∃ v w', returns (listLocalBranches execSync cwd) w v w' ∧
     (∀ w1 e, execSync cmd_branch_list cwd w = (w1, Throw e) → v = [])) ∧
  (∃ v w', returns (listRemoteBranches execSync cwd) w v w' ∧
     (∀ w1 e, execSync cmd_branch_remote cwd w = (w1, Throw e) → v = [])) ∧
  (∃ v w', returns (isBranchMerged execSync branch cwd) w v w' ∧
     (∀ d w1 w2 e, returns (getDefaultBranch execSync cwd) w d w1 →
        execSync (cmd_branch_merged d) cwd w1 = (w2, Throw e) → v = false)) ∧
  (∃ res w', returns (deleteLocalBranch execSync branch cwd force) w res w' ∧
     structured res ∧
     match execSync (cmd_branch_delete (if force then "-D" else "-d") branch) cwd w with
     | (_, Normal _) => res = {| success := true; error := None |}
     | (_, Throw e) => res = {| success := false; error := Some (message e) |}
     end) ∧
  (∃ res w', returns (deleteRemoteBranch execSync remote branch cwd) w res w' ∧
     structured res ∧
     match execSync (cmd_push_delete remote branch) cwd w with
     | (_, Normal _) => res = {| success := true; error := None |}
     | (_, Throw e) => res = {| success := false; error := Some (message e) |}
     end).
Proof.
  unfold returns, structured. repeat apply conj.
  - rewrite isGitRepo_call.
    destruct (execSync cmd_rev_parse cwd w) as [w' [out|e]];
      eexists _, _; (split; [reflexivity|]); intros; congruence.
  - destruct (getDefaultBranch_returns execSync cwd w) as (d & w' & Hd & _).
    exists d, w'. split; [exact Hd|]. intros w1 e1 w2 e2 E1 E2.
    pose proof (getDefaultBranch_fallback execSync _ _ _ _ _ _ E1 E2) as Hf.
    unfold returns in *. congruence.
  - rewrite getCurrentBranch_call.
    destruct (execSync cmd_show_current cwd w) as [w' [out|e]];
      eexists _, _; (split; [reflexivity|]); intros; congruence.
  - rewrite listLocalBranches_call.
    destruct (execSync cmd_branch_list cwd w) as [w' [out|e]];
      eexists _, _; (split; [reflexivity|]); intros; congruence.
  - rewrite listRemoteBranches_call.
    destruct (execSync cmd_branch_remote cwd w) as [w' [out|e]];
      eexists _, _; (split; [reflexivity|]); intros; congruence.
  - destruct (getDefaultBranch_returns execSync cwd w) as (d & w1 & Hd & _).
    rewrite (isBranchMerged_call execSync branch cwd w w1 d Hd).
    destruct (execSync (cmd_branch_merged d) cwd w1) as [w2 [out|e]] eqn:E;
      eexists _, _; (split; [reflexivity|]); intros d' w1' w2' e' Hd' E';
      unfold returns in *; congruence.
  - rewrite deleteLocalBranch_call.
    destruct (execSync _ cwd w) as [w' [out|e]];
      eexists _, _; (split; [reflexivity|]); cbn; eauto.
  - rewrite deleteRemoteBranch_call.
    destruct (execSync _ cwd w) as [w' [out|e]];
      eexists _, _; (split; [reflexivity|]); cbn; eauto.
Qed.

(** ** Merged branches *)





(** ** Listings of the model, read back by the module *)

Lemma append_nil (s : string) : EmptyString +:+ s = s.
Proof. reflexivity. Qed.

Lemma append_cons (c : ascii) (a s : string) : String c a +:+ s = String c (a +:+ s).
Proof. reflexivity. Qed.

Lemma all_chars_app (p : ascii -> bool) (a b : string) :
  Git.all_chars p (a +:+ b) = Git.all_chars p a && Git.all_chars p b.
Proof.
  induction a as [|c a IH]; [reflexivity|].
  rewrite append_cons. cbn [Git.all_chars]. rewrite IH. apply andb_assoc.
Qed.

Lemma all_chars_impl (p q : ascii -> bool) (s : string) :
  (∀ c, p c = true → q c = true) →
  Git.all_chars p s = true → Git.all_chars q s = true.
Proof.
  intros Hpq. induction s as [|c s IH]; [reflexivity|].
  cbn [Git.all_chars]. rewrite !andb_true_iff. intros [Hc Hs]. auto.
Qed.

Lemma name_char_not_white_space (c : ascii) :
  Git.name_char c = true → not_white_space c = true.
Proof. unfold Git.name_char. rewrite andb_true_iff. tauto. Qed.

Lemma not_white_space_not_LF (c : ascii) :
  not_white_space c = true → not_LF c = true.
Proof.
  unfold not_white_space, not_LF. destruct (Ascii.eqb_spec c JS.LF) as [->|]; auto.
Qed.

Lemma trimEnd_no_white_space (s : string) :
  Git.all_chars not_white_space s = true → JS.trimEnd s = s.
Proof.
  induction s as [|c s IH]; [reflexivity|].
  cbn [Git.all_chars JS.trimEnd]. rewrite andb_true_iff. intros [Hc Hs].
  unfold not_white_space in Hc. apply negb_true_iff in Hc.
  rewrite Hc, (IH Hs). reflexivity.
Qed.

Lemma trimEnd_last (a : string) (c : ascii) :
  JS.is_white_space c = false →
  JS.trimEnd (a +:+ String c EmptyString) = a +:+ String c EmptyString.
Proof.
  intros Hc. induction a as [|x a IH].
  - rewrite append_nil. cbn [JS.trimEnd]. rewrite Hc. reflexivity.
  - rewrite append_cons. cbn [JS.trimEnd]. rewrite IH.
    assert (JS.is_empty (a +:+ String c EmptyString) = false) as ->.
    { destruct a; reflexivity. }
    rewrite andb_false_r. reflexivity.
Qed.

Lemma trimStart_first (c : ascii) (s : string) :
  JS.is_white_space c = false → JS.trimStart (String c s) = String c s.
Proof. intros Hc. cbn [JS.trimStart]. rewrite Hc. reflexivity. Qed.

Lemma valid_name_inv (n : string) :
  Git.valid_name n = true →
  n ≠ EmptyString ∧ Git.all_chars Git.name_char n = true.
Proof.
  unfold Git.valid_name. rewrite andb_true_iff, negb_true_iff, is_empty_false. tauto.
Qed.

Lemma valid_name_trim (n : string) : Git.valid_name n = true → JS.trim n = n.
Proof.
  intros [Hne Hall]%valid_name_inv.
  apply (all_chars_impl _ _ _ name_char_not_white_space) in Hall.
  unfold JS.trim. destruct n as [|c n]; [congruence|].
  pose proof Hall as Hall'. cbn [Git.all_chars] in Hall'.
  apply andb_true_iff in Hall' as [Hc _].
  unfold not_white_space in Hc. apply negb_true_iff in Hc.
  rewrite (trimStart_first _ _ Hc). apply trimEnd_no_white_space, Hall.
Qed.

Lemma valid_name_clean (n : string) : Git.valid_name n = true → clean_line n.
Proof.
  intros H. pose proof (valid_name_inv _ H) as [Hne Hall].
  repeat split; [exact Hne | | exact (valid_name_trim _ H)].
  eapply all_chars_impl; [|exact Hall].
  intros c Hc. apply not_white_space_not_LF, name_char_not_white_space, Hc.
Qed.


Lemma detached_entry_clean (described : string) :
  Git.valid_name described = true →
  clean_line ("(HEAD detached at " +:+ described +:+ ")").
Proof.
  intros H. pose proof (valid_name_clean _ H) as (_ & HLF & _).
  repeat split.
  - discriminate.
  - rewrite !all_chars_app, HLF. reflexivity.
  - unfold JS.trim.
    change ("(HEAD detached at " +:+ described +:+ ")")
      with (String "(" ("HEAD detached at " +:+ described +:+ ")")).
    rewrite trimStart_first by reflexivity.
    change (String "(" ("HEAD detached at " +:+ described +:+ ")"))
      with ("(HEAD detached at " +:+ described +:+ String ")" EmptyString).
    assert (Hassoc : ∀ a b c : string, a +:+ b +:+ c = (a +:+ b) +:+ c).
    { intros a b c. induction a as [|x a IH]; [reflexivity|].
      rewrite !append_cons, IH. reflexivity. }
    rewrite Hassoc. apply trimEnd_last. reflexivity.
Qed.

Lemma split_line (a rest : string) :
  Git.all_chars not_LF a = true →
  JS.split JS.LF (a +:+ Git.nl +:+ rest) = a :: JS.split JS.LF rest.
Proof.
  induction a as [|c a IH].
  - intros _. reflexivity.
  - cbn [Git.all_chars]. rewrite andb_true_iff. intros [Hc Ha].
    rewrite append_cons. cbn [JS.split].
    unfold not_LF in Hc. apply negb_true_iff in Hc. rewrite Hc, (IH Ha).
    reflexivity.
Qed.

Lemma split_lines (l : list string) :
  Forall clean_line l →
  JS.split JS.LF (Git.lines l) = l ++ [EmptyString].
Proof.
  induction 1 as [|a l (_ & Ha & _) _ IH]; [reflexivity|].
  cbn [Git.lines foldr]. rewrite split_line by exact Ha.
  fold (Git.lines l). rewrite IH. reflexivity.
Qed.

(** What [listLocalBranches] makes of a listing of clean lines. *)
Lemma read_back_lines (l : list string) :
  Forall clean_line l →
  filter (fun b => negb (JS.is_empty b)) (map JS.trim (JS.split JS.LF (Git.lines l))) = l.
Proof.
  intros Hl. rewrite (split_lines l Hl), map_app. cbn [map].
  rewrite filter_app.
  change (filter _ [JS.trim EmptyString]) with (@nil string).
  rewrite app_nil_r.
  induction Hl as [|a l (Hne & _ & Htrim) _ IH]; [reflexivity|].
  cbn [map]. rewrite filter_cons, Htrim.
  rewrite decide_True.
  - f_equal. exact IH.
  - apply Is_true_true, negb_true_iff, is_empty_false, Hne.
Qed.

(** ** The module over the model *)

(** A command that leaves the repository as it is leaves the world as it is. *)
Lemma git_execSync_unchanged (cmd cwd : string) (w : Git.world) (r : Git.repo)
    (c : Git.command) (res : string + string) :
  w !! cwd = Some r → Git.parse cmd = Some c → Git.run c r = (r, res) →
  Git.execSync cmd cwd w =
    (w, match res with
        | inl out => Normal out
        | inr err => Throw (Git.failed cmd err)
        end).
Proof.
  intros Hw Hp Hr. unfold Git.execSync. rewrite Hw, Hp, Hr.
  rewrite (insert_id w cwd r Hw). destruct res; reflexivity.
Qed.

(** ** Deleting an unmerged branch *)

(** C5, where the code departs from the claim: the unmerged branch
    [fix$HOME].  [deleteLocalBranch] puts the name between double quotes as
    it is; the shell expands [$HOME] there, so git is asked to delete a
    branch that does not exist.  The forced deletion comes back with
    [success: false], and [listLocalBranches] still lists the branch. *)
Theorem forced_deletion_of_name_with_dollar :
  ∃ msg listing,
    returns (deleteLocalBranch Transcript.execSync "fix$HOME" Scenario.dir true)
      Scenario.dollar_name {| success := false; error := Some msg |} listing ∧
    returns (listLocalBranches Transcript.execSync Scenario.dir)
      listing ["fix$HOME"; "main"] [] ∧
    "fix$HOME" ∈ ["fix$HOME"; "main"].
Proof.
  eexists _, _. split; [vm_compute; reflexivity|].
  split; [vm_compute; reflexivity|]. apply list_elem_of_here.
Qed.

(** ** The current branch *)




(** ** The default branch *)

(** C1, where the code departs from the claim: no remote, and the branches
    [mainline] and [master].  The listing contains the letters of [main]
    inside [mainline], so [getDefaultBranch] answers [main], a name that no
    branch has, although a branch named [master] exists. *)
Theorem getDefaultBranch_matches_substring :
  returns (getDefaultBranch Git.execSync Scenario.dir) (Scenario.in_dir Scenario.mainline)
    "main" (Scenario.in_dir Scenario.mainline) ∧
  ("main" ∉ map fst (Git.heads Scenario.mainline ++ Git.remotes Scenario.mainline)) ∧
  "master" ∈ map fst (Git.heads Scenario.mainline).
Proof.
  split; [vm_compute; reflexivity|]. split.
  - cbn. rewrite !elem_of_cons. intros [H | [H | H]]; [discriminate.. | inversion H].
  - cbn. apply list_elem_of_further, list_elem_of_here.
Qed.

(** ** Remote branches *)

Lemma split_nonempty (sep : ascii) (s : string) : JS.split sep s ≠ [].
Proof.
  destruct s as [|c r]; cbn [JS.split]; [discriminate|].
  destruct (Ascii.eqb c sep); [discriminate|].
  destruct (JS.split sep r); discriminate.
Qed.

Lemma join_cons (sep p : string) (rest : list string) :
  rest ≠ [] → JS.join sep (p :: rest) = p +:+ sep +:+ JS.join sep rest.
Proof. destruct rest; [congruence | reflexivity]. Qed.

(** Joining what [split] produced gives the string back. *)
Lemma join_split (s : string) : JS.join "/" (JS.split JS.SLASH s) = s.
Proof.
  induction s as [|c r IH]; [reflexivity|].
  cbn [JS.split]. destruct (Ascii.eqb_spec c JS.SLASH) as [->|Hc].
  - rewrite join_cons by apply split_nonempty. rewrite IH. reflexivity.
  - destruct (JS.split JS.SLASH r) as [|h t] eqn:E; [exact (match split_nonempty _ _ E with end)|].
    destruct t as [|h' t].
    + cbn [JS.join] in *. congruence.
    + rewrite join_cons in * by discriminate. rewrite append_cons. congruence.
Qed.

(** The part of C7 that holds: an entry is split at its first separator, and
    the branch name keeps its own separators. *)
Lemma parseRemoteBranch_first_separator (remote branch : string) :
  Git.all_chars (fun c => negb (Ascii.eqb c JS.SLASH)) remote = true →
  parseRemoteBranch (remote +:+ "/" +:+ branch)
  = {| BranchManager.remote := remote;
       BranchManager.branch := branch;
       fullName := remote +:+ "/" +:+ branch |}.
Proof.
  intros Hr. unfold parseRemoteBranch.
  assert (Hs : JS.split JS.SLASH (remote +:+ "/" +:+ branch)
               = remote :: JS.split JS.SLASH branch).
  { induction remote as [|c a IH]; [reflexivity|].
    cbn [Git.all_chars] in Hr. apply andb_true_iff in Hr as [Hc Ha].
    apply negb_true_iff in Hc.
    rewrite append_cons. cbn [JS.split]. rewrite Hc, (IH Ha). reflexivity. }
  rewrite Hs. cbn [hd JS.slice1 tail]. rewrite join_split. reflexivity.
Qed.

(** C7, where the code departs from the claim: the remote branch
    [origin/fix-HEAD-parsing] is no symbolic HEAD pointer, yet
    [listRemoteBranches] leaves it out because its name contains the letters
    HEAD. *)
Theorem listRemoteBranches_drops_name_containing_HEAD :
  returns (listRemoteBranches Git.execSync Scenario.dir)
    (Scenario.in_dir Scenario.head_in_name)
    [{| remote := "origin"; branch := "main"; fullName := "origin/main" |}]
    (Scenario.in_dir Scenario.head_in_name) ∧
  "origin/fix-HEAD-parsing" ∈ map fst (Git.remotes Scenario.head_in_name) ∧
  Git.origin_HEAD Scenario.head_in_name = None.
Proof.
  split; [vm_compute; reflexivity|]. split; [|reflexivity].
  cbn. apply list_elem_of_here.
Qed.

(** ** The default branch over the model *)

Lemma trimEnd_line (b : string) :
  Git.all_chars not_white_space b = true → JS.trimEnd (b +:+ Git.nl) = b.
Proof.
  induction b as [|c b IH]; [reflexivity|].
  cbn [Git.all_chars]. rewrite andb_true_iff. intros [Hc Hb].
  unfold not_white_space in Hc. apply negb_true_iff in Hc.
  rewrite append_cons. cbn [JS.trimEnd]. rewrite (IH Hb), Hc. reflexivity.
Qed.

Lemma trimEnd_app (x y : string) :
  JS.trimEnd y ≠ EmptyString → JS.trimEnd (x +:+ y) = x +:+ JS.trimEnd y.
Proof.
  intros Hy. induction x as [|c x IH]; [reflexivity|].
  rewrite !append_cons. cbn [JS.trimEnd]. rewrite IH.
  assert (JS.is_empty (x +:+ JS.trimEnd y) = false) as ->.
  { destruct x; [apply is_empty_false, Hy | reflexivity]. }
  rewrite andb_false_r. reflexivity.
Qed.

Lemma trim_ref_line (b : string) :
  Git.valid_name b = true →
  JS.trim ("refs/remotes/origin/" +:+ b +:+ Git.nl) = "refs/remotes/origin/" +:+ b.
Proof.
  intros [Hne Hall]%valid_name_inv.
  apply (all_chars_impl _ _ _ name_char_not_white_space) in Hall.
  unfold JS.trim.
  change ("refs/remotes/origin/" +:+ b +:+ Git.nl)
    with (String "r" ("efs/remotes/origin/" +:+ b +:+ Git.nl)).
  rewrite trimStart_first by reflexivity.
  change (String "r" ("efs/remotes/origin/" +:+ b +:+ Git.nl))
    with ("refs/remotes/origin/" +:+ (b +:+ Git.nl)).
  rewrite trimEnd_app; rewrite (trimEnd_line b Hall); [reflexivity | exact Hne].
Qed.

Lemma dot_run_no_white_space (b : string) :
  Git.all_chars not_white_space b = true → JS.dot_run b = b.
Proof.
  induction b as [|c b IH]; [reflexivity|].
  cbn [Git.all_chars JS.dot_run]. rewrite andb_true_iff. intros [Hc Hb].
  rewrite (IH Hb).
  assert (JS.is_line_terminator c = false) as ->; [|reflexivity].
  unfold not_white_space in Hc. apply negb_true_iff in Hc.
  destruct (JS.is_line_terminator c) eqn:E; [|reflexivity].
  assert (c = JS.LF ∨ c = JS.CR) as [-> | ->]; [|discriminate Hc..].
  destruct c as [[] [] [] [] [] [] [] []]; try discriminate E; auto.
Qed.

Lemma prefix_app (lit s : string) : String.prefix lit (lit +:+ s) = true.
Proof.
  induction lit as [|c lit IH]; [destruct s; reflexivity|].
  rewrite append_cons. cbn [String.prefix].
  destruct (ascii_dec c c); [exact IH | congruence].
Qed.

Lemma drop_string_app (lit s : string) :
  JS.drop_string (String.length lit) (lit +:+ s) = s.
Proof. induction lit as [|c lit IH]; [reflexivity | exact IH]. Qed.

(** A match at the very start of the string. *)
Lemma match_literal_dot_plus_here (lit s g : string) :
  String.prefix lit s = true →
  JS.dot_run (JS.drop_string (String.length lit) s) = g →
  g ≠ EmptyString →
  JS.match_literal_dot_plus lit s = Some g.
Proof.
  intros Hp Hg Hne.
  destruct s; cbn [JS.match_literal_dot_plus]; rewrite Hp, Hg;
    destruct g; congruence.
Qed.

(** The regular expression of [getDefaultBranch] on a line of
    [git symbolic-ref]. *)
Lemma match_origin_ref (b : string) :
  Git.valid_name b = true →
  JS.match_literal_dot_plus "refs/remotes/origin/" ("refs/remotes/origin/" +:+ b) = Some b.
Proof.
  intros [Hne Hall]%valid_name_inv.
  apply (all_chars_impl _ _ _ name_char_not_white_space) in Hall.
  apply match_literal_dot_plus_here; [apply prefix_app | | exact Hne].
  rewrite drop_string_app. apply dot_run_no_white_space, Hall.
Qed.

(** Where [origin/HEAD] is set, it decides the default branch. *)
Lemma git_getDefaultBranch_origin (cwd : string) (w : Git.world) (r : Git.repo) (b : string) :
  w !! cwd = Some r → Git.origin_HEAD r = Some b → Git.valid_name b = true →
  returns (getDefaultBranch Git.execSync cwd) w b w.
Proof.
  intros Hw Ho Hb. unfold returns, getDefaultBranch, defaultBranch_from_origin.
  unfold bind at 1. unfold try_catch. unfold bind at 1.
  rewrite (git_execSync_unchanged cmd_symbolic_ref cwd w r Git.SymbolicRefOriginHead
             (inl ("refs/remotes/origin/" +:+ b +:+ Git.nl)) Hw eq_refl).
  - unfold ret. rewrite (trim_ref_line b Hb), (match_origin_ref b Hb). reflexivity.
  - cbn [Git.run]. rewrite Ho. reflexivity.
Qed.

(** ** The statements at work on the examples *)

Lemma operations_never_raise_witness :
  (∃ w', returns (isGitRepo Git.execSync Scenario.outside) Scenario.no_repository false w') ∧
  (∃ w', returns (getDefaultBranch Git.execSync Scenario.outside)
           Scenario.no_repository "main" w') ∧
  (∃ w', returns (getCurrentBranch Git.execSync Scenario.outside)
           Scenario.no_repository None w') ∧
  (∃ w', returns (listLocalBranches Git.execSync Scenario.outside)
           Scenario.no_repository [] w') ∧
  (∃ w', returns (listRemoteBranches Git.execSync Scenario.outside)
           Scenario.no_repository [] w') ∧
  (∃ w', returns (isBranchMerged Git.execSync "topic" Scenario.outside)
           Scenario.no_repository false w') ∧
  (∃ res w', returns (deleteLocalBranch Git.execSync "topic" Scenario.outside false)
               Scenario.no_repository res w' ∧ structured res) ∧
  (∃ res w', returns (deleteRemoteBranch Git.execSync "origin" "topic" Scenario.outside)
               Scenario.no_repository res w' ∧ structured res).
Proof.
  destruct (operations_never_raise Git.execSync Scenario.outside "topic" "origin" false
              Scenario.no_repository)
    as ((v1 & w1 & H1 & D1) & (v2 & w2 & H2 & D2) & (v3 & w3 & H3 & D3)
        & (v4 & w4 & H4 & D4) & (v5 & w5 & H5 & D5) & (v6 & w6 & H6 & D6)
        & (r7 & w7 & H7 & S7 & _) & (r8 & w8 & H8 & S8 & _)).
  rewrite (D1 _ _ eq_refl) in H1.
  rewrite (D2 _ _ _ _ eq_refl eq_refl) in H2.
  rewrite (D3 _ _ eq_refl) in H3.
  rewrite (D4 _ _ eq_refl) in H4.
  rewrite (D5 _ _ eq_refl) in H5.
  assert (Hd : returns (getDefaultBranch Git.execSync Scenario.outside)
                 Scenario.no_repository "main" Scenario.no_repository)
    by (vm_compute; reflexivity).
  rewrite (D6 _ _ _ _ Hd eq_refl) in H6.
  repeat split; eauto.
Defined.

Lemma cleanup_plan_invariants_witness :
  ∃ st w',
    returns (getBranchesToClean_locals Git.execSync
               {| cwd := Scenario.dir; protect := ["feature-x"]; includeRemote := true |})
      (Scenario.in_dir Scenario.two_remotes) st w' ∧
    Some (defaultBranch st) ∈ protectedBranches st ∧
    (∀ b, b ∈ localToClean st → Some b ∉ protectedBranches st).
Proof.
  destruct (cleanup_plan_invariants Git.execSync
              {| cwd := Scenario.dir; protect := ["feature-x"]; includeRemote := true |}
              (Scenario.in_dir Scenario.two_remotes))
    as (st & w' & w1 & w2 & Hst & _ & _ & _ & _ & Hlocal & Hdefault & _).
  exists st, w'. auto.
Defined.

Lemma local_candidates_ordered_subsequence_witness :
  ∃ plan ls w' w2 w3,
    returns (getBranchesToClean Git.execSync
               {| cwd := Scenario.dir; protect := ["topic"]; includeRemote := false |})
      (Scenario.in_dir Scenario.two_remotes) plan w' ∧
    returns (listLocalBranches Git.execSync Scenario.dir) w2 ls w3 ∧
    sublist (ToClean.local plan) ls ∧
    ("topic" ∉ ToClean.local plan) ∧
    (NoDup ls → NoDup (ToClean.local plan)).
Proof.
  destruct (local_candidates_ordered_subsequence Git.execSync
              {| cwd := Scenario.dir; protect := ["topic"]; includeRemote := false |}
              (Scenario.in_dir Scenario.two_remotes))
    as (d & w1 & c & w2 & ls & w3 & plan & w' & _ & _ & Hls & Hplan & _ & Hsub & Hin & Hnodup).
  exists plan, ls, w', w2, w3.
  split; [exact Hplan|]. split; [exact Hls|]. split; [exact Hsub|].
  split; [|exact Hnodup].
  intros H. apply Hin in H as (_ & _ & _ & Hp). apply Hp, list_elem_of_here.
Defined.

(** ** The scenarios of the repository's test suite, run on the model *)

Example test_getBranchesToClean_except_main_and_current :
  returns (getBranchesToClean Git.execSync
             {| cwd := Scenario.dir; protect := []; includeRemote := false |})
    (Scenario.in_dir Scenario.feature_branches)
    {| ToClean.local := ["feature-1"; "feature-2"; "hotfix-1"]; ToClean.remote := [] |}
    (Scenario.in_dir Scenario.feature_branches).
Proof. vm_compute. reflexivity. Qed.

Example test_getBranchesToClean_protect :
  returns (getBranchesToClean Git.execSync
             {| cwd := Scenario.dir; protect := ["feature-1"]; includeRemote := false |})
    (Scenario.in_dir Scenario.feature_branches)
    {| ToClean.local := ["feature-2"; "hotfix-1"]; ToClean.remote := [] |}
    (Scenario.in_dir Scenario.feature_branches).
Proof. vm_compute. reflexivity. Qed.

Example test_isBranchMerged :
  returns (isBranchMerged Git.execSync "merged-branch" Scenario.dir)
    (Scenario.in_dir Scenario.merged_and_unmerged) true
    (Scenario.in_dir Scenario.merged_and_unmerged) ∧
  returns (isBranchMerged Git.execSync "unmerged-branch" Scenario.dir)
    (Scenario.in_dir Scenario.merged_and_unmerged) false
    (Scenario.in_dir Scenario.merged_and_unmerged) ∧
  returns (isBranchMerged Git.execSync "main" Scenario.dir)
    (Scenario.in_dir Scenario.merged_and_unmerged) true
    (Scenario.in_dir Scenario.merged_and_unmerged).
Proof. repeat split; vm_compute; reflexivity. Qed.

Example test_deleteLocalBranch_merged :
  ∃ w',
    returns (deleteLocalBranch Git.execSync "merged-branch" Scenario.dir false)
      (Scenario.in_dir Scenario.merged_and_unmerged)
      {| success := true; error := None |} w' ∧
    returns (listLocalBranches Git.execSync Scenario.dir) w'
      ["main"; "unmerged-branch"] w'.
Proof. eexists. split; vm_compute; reflexivity. Qed.

(** A safe deletion compares with the current checkout, not with the default
    branch: [feature] is not merged into [main], yet merged into [dev], which
    is checked out, and the safe deletion goes through. *)
Example safe_delete_compares_with_current_checkout :
  returns (isBranchMerged Git.execSync "feature" Scenario.dir)
    (Scenario.in_dir Scenario.on_dev) false (Scenario.in_dir Scenario.on_dev) ∧
  Git.merged_into_head Scenario.on_dev "feature" = true ∧
  ∃ w',
    returns (deleteLocalBranch Git.execSync "feature" Scenario.dir false)
      (Scenario.in_dir Scenario.on_dev) {| success := true; error := None |} w'.
Proof.
  split; [vm_compute; reflexivity|]. split; [reflexivity|].
  eexists. vm_compute. reflexivity.
Qed.

(** * Further properties of the module *)

(** ** What [trim] and [split] leave *)

Lemma trimStart_idempotent (s : string) : JS.trimStart (JS.trimStart s) = JS.trimStart s.
Proof.
  induction s as [|c s IH]; [reflexivity|].
  cbn [JS.trimStart]. destruct (JS.is_white_space c) eqn:E; [exact IH|].
  cbn [JS.trimStart]. rewrite E. reflexivity.
Qed.

Lemma trimEnd_idempotent (s : string) : JS.trimEnd (JS.trimEnd s) = JS.trimEnd s.
Proof.
  induction s as [|c s IH]; [reflexivity|].
  cbn [JS.trimEnd].
  destruct (JS.is_white_space c && JS.is_empty (JS.trimEnd s)) eqn:E; [reflexivity|].
  cbn [JS.trimEnd]. rewrite IH, E. reflexivity.
Qed.

(** Trimming the end of a string that starts with no white space keeps the
    start. *)
Lemma trimStart_trimEnd (s : string) :
  JS.trimStart s = s → JS.trimStart (JS.trimEnd s) = JS.trimEnd s.
Proof.
  destruct s as [|c s]; [reflexivity|].
  cbn [JS.trimStart JS.trimEnd]. destruct (JS.is_white_space c) eqn:E.
  - intros H. exfalso.
    assert (Hlen : ∀ t, String.length (JS.trimStart t) <= String.length t).
    { intros t. induction t as [|x t IHt]; [reflexivity|].
      cbn [JS.trimStart]. destruct (JS.is_white_space x); cbn [String.length]; lia. }
    pose proof (Hlen s) as Hs. rewrite H in Hs. cbn [String.length] in Hs. lia.
  - intros _. rewrite andb_false_l. cbn [JS.trimStart]. rewrite E. reflexivity.
Qed.

Lemma trim_idempotent (s : string) : JS.trim (JS.trim s) = JS.trim s.
Proof.
  unfold JS.trim.
  rewrite (trimStart_trimEnd (JS.trimStart s) (trimStart_idempotent s)).
  apply trimEnd_idempotent.
Qed.

Lemma all_chars_trimStart (p : ascii -> bool) (s : string) :
  Git.all_chars p s = true → Git.all_chars p (JS.trimStart s) = true.
Proof.
  induction s as [|c s IH]; [reflexivity|].
  cbn [JS.trimStart]. destruct (JS.is_white_space c); [|auto].
  cbn [Git.all_chars]. rewrite andb_true_iff. intros [_ H]. auto.
Qed.

Lemma all_chars_trimEnd (p : ascii -> bool) (s : string) :
  Git.all_chars p s = true → Git.all_chars p (JS.trimEnd s) = true.
Proof.
  induction s as [|c s IH]; [reflexivity|].
  cbn [Git.all_chars JS.trimEnd]. rewrite andb_true_iff. intros [Hc Hs].
  destruct (JS.is_white_space c && JS.is_empty (JS.trimEnd s)); [reflexivity|].
  cbn [Git.all_chars]. rewrite Hc, (IH Hs). reflexivity.
Qed.

Lemma all_chars_trim (p : ascii -> bool) (s : string) :
  Git.all_chars p s = true → Git.all_chars p (JS.trim s) = true.
Proof. intros H. apply all_chars_trimEnd, all_chars_trimStart, H. Qed.

(** No piece of [split] holds the separator. *)
Lemma split_pieces_no_separator (sep : ascii) (s : string) :
  Forall (fun piece => Git.all_chars (fun c => negb (Ascii.eqb c sep)) piece = true)
    (JS.split sep s).
Proof.
  induction s as [|c s IH]; [repeat constructor|].
  cbn [JS.split]. destruct (Ascii.eqb c sep) eqn:E.
  - constructor; [reflexivity | exact IH].
  - destruct (JS.split sep s) as [|h t]; [repeat constructor; cbn; rewrite E; reflexivity|].
    inversion IH as [|? ? Hh Ht]; subst. constructor; [|exact Ht].
    cbn [Git.all_chars]. rewrite E, Hh. reflexivity.
Qed.

(** The lines of an output, trimmed: each without a line feed, and trimmed. *)
Lemma trimmed_lines (output b : string) :
  b ∈ map JS.trim (JS.split JS.LF output) →
  JS.trim b = b ∧ Git.all_chars not_LF b = true.
Proof.
  rewrite list_elem_of_In, in_map_iff. intros (line & <- & Hin).
  split; [apply trim_idempotent|].
  apply all_chars_trim.
  pose proof (split_pieces_no_separator JS.LF output) as Hall.
  rewrite Forall_forall in Hall. apply Hall, list_elem_of_In, Hin.
Qed.

(** X1: the name that [getCurrentBranch] returns, when it is not [null], is
    trimmed; every name that [listLocalBranches] returns is non-empty,
    trimmed and free of line feeds. *)
Theorem returned_names_are_trimmed {W : Type}
    (execSync : string -> string -> exec W string) (cwd : string) (w : W) :
  (∃ c w', returns (getCurrentBranch execSync cwd) w c w' ∧
     ∀ b, c = Some b → JS.trim b = b) ∧
  (∃ ls w', returns (listLocalBranches execSync cwd) w ls w' ∧
     ∀ b, b ∈ ls →
       b ≠ EmptyString ∧ JS.trim b = b ∧ Git.all_chars not_LF b = true).
Proof.
  unfold returns. split.
  - rewrite getCurrentBranch_call.
    destruct (execSync cmd_show_current cwd w) as [w' [out|e]]; eexists _, _;
      (split; [reflexivity|]); intros b [= <-]. apply trim_idempotent.
  - rewrite listLocalBranches_call.
    destruct (execSync cmd_branch_list cwd w) as [w' [out|e]]; eexists _, _;
      (split; [reflexivity|]); intros b Hb; [|inversion Hb].
    apply list_elem_of_filter in Hb as [Hne Hb].
    apply Is_true_true, negb_true_iff, is_empty_false in Hne.
    destruct (trimmed_lines out b Hb). auto.
Qed.

(** ** Entries of the remote listing *)

(** What the callback of [listRemoteBranches] makes of any entry: a remote
    without separator, and a branch that, put back behind the remote, gives
    the entry again. *)
Lemma parseRemoteBranch_parts (name : string) :
  Git.all_chars (fun c => negb (Ascii.eqb c JS.SLASH)) (remote (parseRemoteBranch name)) = true
  ∧ fullName (parseRemoteBranch name) = name
  ∧ (name = remote (parseRemoteBranch name) ∧ branch (parseRemoteBranch name) = EmptyString
     ∨ name = remote (parseRemoteBranch name) +:+ "/" +:+ branch (parseRemoteBranch name)).
Proof.
  unfold parseRemoteBranch. cbn [remote branch fullName].
  pose proof (split_pieces_no_separator JS.SLASH name) as Hall.
  pose proof (join_split name) as Hjoin.
  destruct (JS.split JS.SLASH name) as [|h t] eqn:E;
    [exact (match split_nonempty _ _ E with end)|].
  cbn [hd JS.slice1 tail]. apply Forall_cons in Hall as [Hh _].
  split; [exact Hh|]. split; [reflexivity|].
  destruct t as [|h' t].
  - left. cbn [JS.join] in *. auto.
  - right. rewrite join_cons in Hjoin by discriminate. auto.
Qed.

(** X2: every entry that [listRemoteBranches] returns has a full name that is
    non-empty, trimmed and without the letters HEAD; its remote holds no
    path separator; and the full name is the remote alone (with an empty
    branch) or the remote, a separator and the branch. *)
Theorem listRemoteBranches_entries {W : Type}
    (execSync : string -> string -> exec W string) (cwd : string) (w : W) :
  ∃ rs w',
    returns (listRemoteBranches execSync cwd) w rs w' ∧
    ∀ r, r ∈ rs →
      fullName r ≠ EmptyString ∧
      JS.trim (fullName r) = fullName r ∧
      JS.includes "HEAD" (fullName r) = false ∧
      Git.all_chars (fun c => negb (Ascii.eqb c JS.SLASH)) (remote r) = true ∧
      (fullName r = remote r ∧ branch r = EmptyString
       ∨ fullName r = remote r +:+ "/" +:+ branch r).
Proof.
  unfold returns. rewrite listRemoteBranches_call.
  destruct (execSync cmd_branch_remote cwd w) as [w' [out|e]]; eexists _, _;
    (split; [reflexivity|]); intros r Hr; [|inversion Hr].
  apply list_elem_of_In, in_map_iff in Hr as (name & <- & Hin).
  apply list_elem_of_In, list_elem_of_filter in Hin as [Hkeep Hin].
  apply Is_true_true, andb_true_iff in Hkeep as [Hne Hhead].
  apply negb_true_iff, is_empty_false in Hne. apply negb_true_iff in Hhead.
  destruct (trimmed_lines out name Hin) as [Htrim _].
  destruct (parseRemoteBranch_parts name) as (Hremote & Hfull & Hparts).
  rewrite Hfull. auto.
Qed.

(** ** The default branch is one word of a command line *)

Lemma dot_run_no_line_terminator (s : string) :
  Git.all_chars (fun c => negb (JS.is_line_terminator c)) (JS.dot_run s) = true.
Proof.
  induction s as [|c s IH]; [reflexivity|].
  cbn [JS.dot_run]. destruct (JS.is_line_terminator c) eqn:E; [reflexivity|].
  cbn [Git.all_chars]. rewrite E, IH. reflexivity.
Qed.

Lemma match_literal_dot_plus_no_line_terminator (lit s g : string) :
  JS.match_literal_dot_plus lit s = Some g →
  Git.all_chars (fun c => negb (JS.is_line_terminator c)) g = true.
Proof.
  assert (Hhere : ∀ t,
    match JS.dot_run t with EmptyString => None | g' => Some g' end = Some g →
    Git.all_chars (fun c => negb (JS.is_line_terminator c)) g = true).
  { intros t H. pose proof (dot_run_no_line_terminator t) as Ht.
    destruct (JS.dot_run t); [discriminate|]. injection H as <-. exact Ht. }
  induction s as [|c r IH]; cbn [JS.match_literal_dot_plus].
  - destruct (String.prefix lit EmptyString); [|discriminate].
    destruct (match JS.dot_run _ with EmptyString => None | g' => Some g' end) eqn:E;
      [|discriminate].
    intros [= <-]. eapply Hhere, E.
  - destruct (String.prefix lit (String c r)); [|exact IH].
    destruct (match JS.dot_run _ with EmptyString => None | g' => Some g' end) eqn:E;
      [|exact IH].
    intros [= <-]. eapply Hhere, E.
Qed.

(** X3: the name that [getDefaultBranch] returns is never empty and never
    holds a line terminator. *)
Theorem getDefaultBranch_single_line {W : Type}
    (execSync : string -> string -> exec W string) (cwd : string) (w : W) :
  ∃ d w',
    returns (getDefaultBranch execSync cwd) w d w' ∧
    d ≠ EmptyString ∧
    Git.all_chars (fun c => negb (JS.is_line_terminator c)) d = true.
Proof.
  unfold getDefaultBranch, defaultBranch_from_origin, defaultBranch_from_listing.
  unfold_exec. next_call.
  - destruct (JS.match_literal_dot_plus _ _) as [g|] eqn:M.
    + exists g, w0. split; [reflexivity|].
      split; [eapply match_literal_dot_plus_nonempty, M
             | eapply match_literal_dot_plus_no_line_terminator, M].
    + next_call.
      * destruct (JS.includes "main" out0); [|destruct (JS.includes "master" out0)];
          eexists _, _; (split; [reflexivity | split; [discriminate | reflexivity]]).
      * eexists _, _; (split; [reflexivity | split; [discriminate | reflexivity]]).
  - next_call.
    + destruct (JS.includes "main" out); [|destruct (JS.includes "master" out)];
        eexists _, _; (split; [reflexivity | split; [discriminate | reflexivity]]).
    + eexists _, _; (split; [reflexivity | split; [discriminate | reflexivity]]).
Qed.

(** ** The plan as a function of the protect list *)

Lemma returns_inj {W A : Type} (m : exec W A) (w w1 w2 : W) (a b : A) :
  returns m w a w1 → returns m w b w2 → a = b ∧ w1 = w2.
Proof. unfold returns. intros H1 H2. rewrite H1 in H2. injection H2. auto. Qed.

Lemma filter_sublist_mono {A : Type} (P Q : A -> Prop)
    `{∀ x, Decision (P x)} `{∀ x, Decision (Q x)} (l : list A) :
  (∀ x, P x → Q x) → sublist (filter P l) (filter Q l).
Proof.
  intros HPQ. induction l as [|x l IH]; [constructor|].
  rewrite !filter_cons. destruct (decide (P x)) as [HP|HP].
  - rewrite decide_True by auto. constructor. exact IH.
  - destruct (decide (Q x)); [constructor|]; exact IH.
Qed.

Lemma buildProtected_mono (d : string) (c : option string) (p1 p2 : list string)
    (v : option string) :
  (∀ x, x ∈ p1 → x ∈ p2) → v ∈ buildProtected d c p1 → v ∈ buildProtected d c p2.
Proof.
  intros Hsub. rewrite !elem_of_buildProtected.
  intros ([H | [H | (p & Hp & H)]] & Hrest); split; eauto 6.
Qed.

Section PlanOfProtect.
Context {W : Type}.
Variable execSync : string -> string -> exec W string.

(** The plan, given what the four inspections return. *)
Lemma getBranchesToClean_locals_run (options : Options) (w w1 w2 w3 w4 : W)
    (d : string) (c : option string) (ls : list string) (rs : list RemoteBranch) :
  returns (getDefaultBranch execSync (cwd options)) w d w1 →
  returns (getCurrentBranch execSync (cwd options)) w1 c w2 →
  returns (listLocalBranches execSync (cwd options)) w2 ls w3 →
  (if includeRemote options
   then returns (listRemoteBranches execSync (cwd options)) w3 rs w4
   else rs = [] ∧ w4 = w3) →
  returns (getBranchesToClean execSync options) w
    {| ToClean.local :=
         filter (fun b => Some b ∉ buildProtected d c (protect options)) ls;
       ToClean.remote :=
         filter (fun r => Some (branch r) ∉ buildProtected d c (protect options)) rs |}
    w4.
Proof.
  intros Hd Hc Hl Hr.
  destruct (getBranchesToClean_locals_trace execSync options w)
    as (d' & w1' & c' & w2' & ls' & w3' & rs' & w4' & Hd' & _ & Hc' & Hl' & Hr' & Hst).
  destruct (returns_inj _ _ _ _ _ _ Hd Hd') as [<- <-].
  destruct (returns_inj _ _ _ _ _ _ Hc Hc') as [<- <-].
  destruct (returns_inj _ _ _ _ _ _ Hl Hl') as [<- <-].
  assert (rs' = rs ∧ w4' = w4) as [-> ->].
  { destruct (includeRemote options).
    - destruct (returns_inj _ _ _ _ _ _ Hr Hr'). auto.
    - destruct Hr as [-> ->], Hr' as [-> ->]. auto. }
  pose proof (getBranchesToClean_of_locals execSync options w w4 _ Hst) as Hplan.
  cbn [localToClean remoteToClean] in Hplan.
  rewrite (filter_not_has _ (fun b => b)), (filter_not_has _ branch) in Hplan.
  exact Hplan.
Qed.

End PlanOfProtect.



(** X5: from the same world, a protect list with more names gives a plan
    whose local and remote candidates are subsequences of the candidates of
    the plan for the shorter list: protecting more never adds a candidate. *)
Theorem protecting_more_never_adds_candidates {W : Type}
    (execSync : string -> string -> exec W string)
    (dir : string) (include : bool) (p1 p2 : list string) (w : W) :
  (∀ x, x ∈ p1 → x ∈ p2) →
  ∃ plan1 plan2 w',
    returns (getBranchesToClean execSync
               {| cwd := dir; protect := p1; includeRemote := include |}) w plan1 w' ∧
    returns (getBranchesToClean execSync
               {| cwd := dir; protect := p2; includeRemote := include |}) w plan2 w' ∧
    sublist (ToClean.local plan2) (ToClean.local plan1) ∧
    sublist (ToClean.remote plan2) (ToClean.remote plan1).
Proof.
  intros Hsub.
  destruct (getBranchesToClean_locals_trace execSync
              {| cwd := dir; protect := p1; includeRemote := include |} w)
    as (d & w1 & c & w2 & ls & w3 & rs & w4 & Hd & _ & Hc & Hl & Hr & _).
  cbn [cwd includeRemote] in *.
  eexists _, _, w4.
  split; [exact (getBranchesToClean_locals_run execSync
                   {| cwd := dir; protect := p1; includeRemote := include |}
                   w w1 w2 w3 w4 d c ls rs Hd Hc Hl Hr)|].
  split; [exact (getBranchesToClean_locals_run execSync
                   {| cwd := dir; protect := p2; includeRemote := include |}
                   w w1 w2 w3 w4 d c ls rs Hd Hc Hl Hr)|].
  cbn [ToClean.local ToClean.remote protect].
  split; apply filter_sublist_mono; intros x Hx Hin;
    exact (Hx (buildProtected_mono d c p1 p2 _ Hsub Hin)).
Qed.

Lemma protecting_more_never_adds_candidates_witness :
  ∃ plan1 plan2 w',
    returns (getBranchesToClean Git.execSync
               {| cwd := Scenario.dir; protect := ["topic"]; includeRemote := true |})
      (Scenario.in_dir Scenario.two_remotes) plan1 w' ∧
    returns (getBranchesToClean Git.execSync
               {| cwd := Scenario.dir; protect := ["feature-x"; "topic"];
                  includeRemote := true |})
      (Scenario.in_dir Scenario.two_remotes) plan2 w' ∧
    sublist (ToClean.local plan2) (ToClean.local plan1) ∧
    sublist (ToClean.remote plan2) (ToClean.remote plan1).
Proof.
  apply (protecting_more_never_adds_candidates Git.execSync Scenario.dir true
           ["topic"] ["feature-x"; "topic"] (Scenario.in_dir Scenario.two_remotes)).
  intros x Hx. apply list_elem_of_further, Hx.
Defined.

(** X6: the plan depends on the protect list as a set: from the same world,
    two protect lists with the same names, in whatever order and with
    whatever repetitions, give the same plan. *)
Theorem plan_depends_on_protected_names_as_a_set {W : Type}
    (execSync : string -> string -> exec W string)
    (dir : string) (include : bool) (p1 p2 : list string) (w : W) :
  (∀ x, x ∈ p1 ↔ x ∈ p2) →
  ∃ plan w',
    returns (getBranchesToClean execSync
               {| cwd := dir; protect := p1; includeRemote := include |}) w plan w' ∧
    returns (getBranchesToClean execSync
               {| cwd := dir; protect := p2; includeRemote := include |}) w plan w'.
Proof.
  intros Hsame.
  destruct (getBranchesToClean_locals_trace execSync
              {| cwd := dir; protect := p1; includeRemote := include |} w)
    as (d & w1 & c & w2 & ls & w3 & rs & w4 & Hd & _ & Hc & Hl & Hr & _).
  cbn [cwd includeRemote] in *.
  eexists _, w4.
  split; [exact (getBranchesToClean_locals_run execSync
                   {| cwd := dir; protect := p1; includeRemote := include |}
                   w w1 w2 w3 w4 d c ls rs Hd Hc Hl Hr)|].
  pose proof (getBranchesToClean_locals_run execSync
                {| cwd := dir; protect := p2; includeRemote := include |}
                w w1 w2 w3 w4 d c ls rs Hd Hc Hl Hr) as H2.
  cbn [protect] in *.
  assert (Heq : buildProtected d c p2 = buildProtected d c p1).
  { apply set_eq. intros v. split; apply buildProtected_mono;
      intros x; apply Hsame. }
  rewrite Heq in H2. exact H2.
Qed.

Lemma plan_depends_on_protected_names_as_a_set_witness :
  ∃ plan w',
    returns (getBranchesToClean Git.execSync
               {| cwd := Scenario.dir; protect := ["topic"; "feature-x"];
                  includeRemote := true |})
      (Scenario.in_dir Scenario.two_remotes) plan w' ∧
    returns (getBranchesToClean Git.execSync
               {| cwd := Scenario.dir; protect := ["feature-x"; "topic"; "topic"];
                  includeRemote := true |})
      (Scenario.in_dir Scenario.two_remotes) plan w'.
Proof.
  apply (plan_depends_on_protected_names_as_a_set Git.execSync Scenario.dir true
           ["topic"; "feature-x"] ["feature-x"; "topic"; "topic"]
           (Scenario.in_dir Scenario.two_remotes)).
  intros x. rewrite !elem_of_cons, !elem_of_nil. tauto.
Defined.

(** ** Inspecting and planning only ask fixed queries *)

Lemma run_read_only (c : Git.command) (r : Git.repo) :
  read_only c = true → fst (Git.run c r) = r.
Proof.
  destruct c; try discriminate; intros _; cbn [Git.run]; try reflexivity.
  - destruct (Git.origin_HEAD r); reflexivity.
  - destruct (Git.HEAD r); reflexivity.
  - destruct (Git.resolve r rev); reflexivity.
Qed.

Lemma git_execSync_read_only (cmd cwd : string) (w : Git.world) :
  (∀ c, Git.parse cmd = Some c → read_only c = true) →
  fst (Git.execSync cmd cwd w) = w.
Proof.
  intros Hro. unfold Git.execSync.
  destruct (w !! cwd) as [r|] eqn:Hw; [|reflexivity].
  destruct (Git.parse cmd) as [c|]; [|reflexivity].
  pose proof (run_read_only c r (Hro c eq_refl)) as Hr.
  destruct (Git.run c r) as [r' [out|err]]; cbn in Hr; subst r'; cbn;
    apply insert_id, Hw.
Qed.

Lemma git_fixed_query_unchanged (cmd cwd : string) (w : Git.world) (c : Git.command) :
  Git.parse cmd = Some c → read_only c = true → fst (Git.execSync cmd cwd w) = w.
Proof.
  intros Hp Hc. apply git_execSync_read_only. intros c' Hc'. congruence.
Qed.

Ltac in_fixed :=
  unfold fixed_queries;
  repeat first [apply list_elem_of_here | apply list_elem_of_further].

Section FixedQueries.
Context {W : Type}.
Variable execSync : string -> string -> exec W string.
Hypothesis queries_read_only :
  ∀ cmd cwd w, cmd ∈ fixed_queries → fst (execSync cmd cwd w) = w.

Lemma fixed_query_unchanged (cmd cwd : string) (w w' : W) (res : completion string) :
  cmd ∈ fixed_queries → execSync cmd cwd w = (w', res) → w' = w.
Proof. intros Hin E. rewrite <- (queries_read_only cmd cwd w Hin), E. reflexivity. Qed.

Lemma isGitRepo_unchanged (cwd : string) (w : W) :
  fst (isGitRepo execSync cwd w) = w.
Proof.
  rewrite isGitRepo_call.
  destruct (execSync cmd_rev_parse cwd w) as [w' [out|e]] eqn:E; cbn;
    apply (fixed_query_unchanged cmd_rev_parse _ _ _ _ ltac:(in_fixed) E).
Qed.

Lemma getDefaultBranch_unchanged (cwd : string) (w : W) :
  fst (getDefaultBranch execSync cwd w) = w.
Proof.
  unfold getDefaultBranch, defaultBranch_from_origin, defaultBranch_from_listing.
  unfold_exec.
  destruct (execSync cmd_symbolic_ref cwd w) as [w1 [out|e]] eqn:E1;
    apply (fixed_query_unchanged cmd_symbolic_ref _ _ _ _ ltac:(in_fixed)) in E1; subst w1.
  - destruct (JS.match_literal_dot_plus _ _); [reflexivity|].
    destruct (execSync cmd_branch_all cwd w) as [w2 [out2|e]] eqn:E2;
      apply (fixed_query_unchanged cmd_branch_all _ _ _ _ ltac:(in_fixed)) in E2; subst w2;
      [|reflexivity].
    destruct (JS.includes "main" out2); [|destruct (JS.includes "master" out2)];
      reflexivity.
  - destruct (execSync cmd_branch_all cwd w) as [w2 [out2|e2]] eqn:E2;
      apply (fixed_query_unchanged cmd_branch_all _ _ _ _ ltac:(in_fixed)) in E2; subst w2;
      [|reflexivity].
    destruct (JS.includes "main" out2); [|destruct (JS.includes "master" out2)];
      reflexivity.
Qed.

Lemma getCurrentBranch_unchanged (cwd : string) (w : W) :
  fst (getCurrentBranch execSync cwd w) = w.
Proof.
  rewrite getCurrentBranch_call.
  destruct (execSync cmd_show_current cwd w) as [w' [out|e]] eqn:E; cbn;
    apply (fixed_query_unchanged cmd_show_current _ _ _ _ ltac:(in_fixed) E).
Qed.

Lemma listLocalBranches_unchanged (cwd : string) (w : W) :
  fst (listLocalBranches execSync cwd w) = w.
Proof.
  rewrite listLocalBranches_call.
  destruct (execSync cmd_branch_list cwd w) as [w' [out|e]] eqn:E; cbn;
    apply (fixed_query_unchanged cmd_branch_list _ _ _ _ ltac:(in_fixed) E).
Qed.

Lemma listRemoteBranches_unchanged (cwd : string) (w : W) :
  fst (listRemoteBranches execSync cwd w) = w.
Proof.
  rewrite listRemoteBranches_call.
  destruct (execSync cmd_branch_remote cwd w) as [w' [out|e]] eqn:E; cbn;
    apply (fixed_query_unchanged cmd_branch_remote _ _ _ _ ltac:(in_fixed) E).
Qed.

Lemma returns_fst {A : Type} (m : exec W A) (w w' : W) (a : A) :
  returns m w a w' → fst (m w) = w'.
Proof. unfold returns. intros ->. reflexivity. Qed.

Lemma getBranchesToClean_unchanged (options : Options) (w : W) :
  fst (getBranchesToClean execSync options w) = w.
Proof.
  destruct (getBranchesToClean_locals_trace execSync options w)
    as (d & w1 & c & w2 & ls & w3 & rs & w4 & Hd & _ & Hc & Hl & Hr & Hst).
  rewrite (returns_fst _ _ _ _ (getBranchesToClean_of_locals _ _ _ _ _ Hst)).
  apply returns_fst in Hd. rewrite getDefaultBranch_unchanged in Hd. subst w1.
  apply returns_fst in Hc. rewrite getCurrentBranch_unchanged in Hc. subst w2.
  apply returns_fst in Hl. rewrite listLocalBranches_unchanged in Hl. subst w3.
  destruct (includeRemote options).
  - apply returns_fst in Hr. rewrite listRemoteBranches_unchanged in Hr. auto.
  - apply Hr.
Qed.

End FixedQueries.

(** X7: [isGitRepo], [getDefaultBranch], [getCurrentBranch],
    [listLocalBranches], [listRemoteBranches] and [getBranchesToClean] ask
    nothing but six fixed command lines: under every [execSync] for which
    these six leave the world as it is, whatever any other command line does,
    each of the functions leaves the world as it is.  Planning a cleanup
    issues no deletion and no command line built from a branch name. *)
Theorem planning_only_asks_fixed_queries {W : Type}
    (execSync : string -> string -> exec W string)
    (cwd : string) (options : Options) (w : W) :
  (∀ cmd dir w0, cmd ∈ fixed_queries → fst (execSync cmd dir w0) = w0) →
  fst (isGitRepo execSync cwd w) = w ∧
  fst (getDefaultBranch execSync cwd w) = w ∧
  fst (getCurrentBranch execSync cwd w) = w ∧
  fst (listLocalBranches execSync cwd w) = w ∧
  fst (listRemoteBranches execSync cwd w) = w ∧
  fst (getBranchesToClean execSync options w) = w.
Proof.
  intros Hq. repeat apply conj.
  - apply isGitRepo_unchanged, Hq.
  - apply getDefaultBranch_unchanged, Hq.
  - apply getCurrentBranch_unchanged, Hq.
  - apply listLocalBranches_unchanged, Hq.
  - apply listRemoteBranches_unchanged, Hq.
  - apply getBranchesToClean_unchanged, Hq.
Qed.

Lemma git_fixed_queries_read_only (cmd cwd : string) (w : Git.world) :
  cmd ∈ fixed_queries → fst (Git.execSync cmd cwd w) = w.
Proof.
  unfold fixed_queries. rewrite !elem_of_cons, elem_of_nil.
  intros [-> | [-> | [-> | [-> | [-> | [-> | []]]]]]];
    eapply git_fixed_query_unchanged; reflexivity.
Qed.

Lemma planning_only_asks_fixed_queries_witness :
  fst (getBranchesToClean Git.execSync
         {| cwd := Scenario.dir; protect := []; includeRemote := true |}
         (Scenario.in_dir Scenario.two_remotes))
  = Scenario.in_dir Scenario.two_remotes.
Proof.
  apply (planning_only_asks_fixed_queries Git.execSync Scenario.dir
           {| cwd := Scenario.dir; protect := []; includeRemote := true |}
           (Scenario.in_dir Scenario.two_remotes) git_fixed_queries_read_only).
Defined.

(** ** The default branch of a repository *)

Lemma includes_unfold (sub s : string) :
  JS.includes sub s
  = String.prefix sub s
    || match s with EmptyString => false | String _ r => JS.includes sub r end.
Proof. destruct s; reflexivity. Qed.

Lemma prefix_app_l (sub s t : string) :
  String.prefix sub s = true → String.prefix sub (s +:+ t) = true.
Proof.
  revert s. induction sub as [|a sub IH]; intros s.
  - intros _. destruct (s +:+ t); reflexivity.
  - destruct s as [|c s]; cbn [String.prefix]; [discriminate|].
    rewrite append_cons. cbn [String.prefix].
    destruct (ascii_dec a c); [apply IH | discriminate].
Qed.

Lemma includes_app_r (sub a s : string) :
  JS.includes sub s = true → JS.includes sub (a +:+ s) = true.
Proof.
  intros H. induction a as [|c a IH]; [exact H|].
  rewrite append_cons, includes_unfold, IH. apply orb_true_r.
Qed.

Lemma includes_app_l (sub s t : string) :
  JS.includes sub s = true → JS.includes sub (s +:+ t) = true.
Proof.
  induction s as [|c s IH]; rewrite includes_unfold, orb_true_iff.
  - intros [H | H]; [|discriminate].
    rewrite includes_unfold, (prefix_app_l _ _ t H). reflexivity.
  - intros [H | H].
    + rewrite includes_unfold, (prefix_app_l _ _ t H). reflexivity.
    + rewrite append_cons, includes_unfold, (IH H). apply orb_true_r.
Qed.

Lemma includes_lines (sub e : string) (l : list string) :
  e ∈ l → JS.includes sub e = true → JS.includes sub (Git.lines l) = true.
Proof.
  intros Hin He. induction Hin as [e l | e x l _ IH]; cbn [Git.lines foldr].
  - apply includes_app_l, He.
  - apply includes_app_r, includes_app_r, IH, He.
Qed.

(** X12: over the model of git, [getDefaultBranch] returns the branch that
    [origin/HEAD] points to when it is set, whatever the other branches are
    called; and without [origin/HEAD] it returns [main] whenever a local
    branch is called [main]. *)
Theorem getDefaultBranch_of_repository (cwd : string) (w : Git.world) (r : Git.repo) :
  w !! cwd = Some r →
  (∀ b, Git.origin_HEAD r = Some b → Git.valid_name b = true →
     returns (getDefaultBranch Git.execSync cwd) w b w) ∧
  (Git.origin_HEAD r = None → "main" ∈ map fst (Git.heads r) →
     returns (getDefaultBranch Git.execSync cwd) w "main" w).
Proof.
  intros Hw. split.
  - intros b Ho Hb. exact (git_getDefaultBranch_origin cwd w r b Hw Ho Hb).
  - intros Ho Hmain.
    unfold returns, getDefaultBranch, defaultBranch_from_origin, defaultBranch_from_listing.
    unfold_exec.
    rewrite (git_execSync_unchanged cmd_symbolic_ref cwd w r Git.SymbolicRefOriginHead
               (inr "fatal: ref refs/remotes/origin/HEAD is not a symbolic ref")
               Hw eq_refl)
      by (cbn [Git.run]; rewrite Ho; reflexivity).
    rewrite (git_execSync_unchanged cmd_branch_all cwd w r Git.BranchAll
               (inl (Git.lines (Git.all_entries r))) Hw eq_refl eq_refl).
    assert (JS.includes "main" (Git.lines (Git.all_entries r)) = true) as ->;
      [|reflexivity].
    apply list_elem_of_In, in_map_iff in Hmain as ([n c] & Hn & Hin).
    cbn in Hn. subst n.
    apply (includes_lines "main"
             ((if Git.is_current r "main" then "* " else "  ") +:+ "main")).
    + unfold Git.all_entries. apply elem_of_app. right. apply elem_of_app. left.
      apply list_elem_of_In, in_map_iff. exists ("main", c). split; [reflexivity | exact Hin].
    + apply includes_app_r. reflexivity.
Qed.

Lemma getDefaultBranch_of_repository_witness :
  returns (getDefaultBranch Git.execSync Scenario.dir)
    (Scenario.in_dir Scenario.release_default) "release/2.x"
    (Scenario.in_dir Scenario.release_default) ∧
  returns (getDefaultBranch Git.execSync Scenario.dir)
    (Scenario.in_dir Scenario.feature_branches) "main"
    (Scenario.in_dir Scenario.feature_branches).
Proof.
  split.
  - exact (proj1 (getDefaultBranch_of_repository Scenario.dir
                    (Scenario.in_dir Scenario.release_default) Scenario.release_default
                    (lookup_singleton_eq _ _))
             "release/2.x" eq_refl eq_refl).
  - apply (proj2 (getDefaultBranch_of_repository Scenario.dir
                    (Scenario.in_dir Scenario.feature_branches) Scenario.feature_branches
                    (lookup_singleton_eq _ _)) eq_refl).
    cbn. do 3 apply list_elem_of_further. apply list_elem_of_here.
Defined.

(** ** The empty name counts as merged *)

Lemma split_ends_with_empty (s : string) :
  ∃ l, l ≠ [] ∧ JS.split JS.LF (s +:+ String JS.LF EmptyString) = l ++ [EmptyString].
Proof.
  induction s as [|c s (l & Hl & IH)].
  - exists [EmptyString]. split; [discriminate | reflexivity].
  - rewrite append_cons. cbn [JS.split]. rewrite IH.
    destruct (Ascii.eqb c JS.LF).
    + exists (EmptyString :: l). split; [discriminate | reflexivity].
    + destruct l as [|h t]; [congruence|].
      exists (String c h :: t). split; [discriminate | reflexivity].
Qed.

(** X13: [isBranchMerged] does not drop empty lines, unlike the two listing
    functions: for the empty branch name it answers [true] whenever the
    listing of merged branches succeeds with an output that is empty or ends
    with a line feed. *)
Theorem isBranchMerged_of_empty_name {W : Type}
    (execSync : string -> string -> exec W string) (cwd : string) (w w1 w2 : W)
    (d output : string) :
  returns (getDefaultBranch execSync cwd) w d w1 →
  execSync (cmd_branch_merged d) cwd w1 = (w2, Normal output) →
  (output = EmptyString ∨ ∃ s, output = s +:+ String JS.LF EmptyString) →
  returns (isBranchMerged execSync EmptyString cwd) w true w2.
Proof.
  intros Hd E Hout. unfold returns.
  rewrite (isBranchMerged_call execSync EmptyString cwd w w1 d Hd), E.
  do 2 f_equal. unfold JS.array_includes. apply bool_decide_eq_true.
  destruct Hout as [-> | (s & ->)].
  - apply list_elem_of_here.
  - destruct (split_ends_with_empty s) as (l & _ & ->).
    apply elem_of_app. right. apply list_elem_of_here.
Qed.

Lemma isBranchMerged_of_empty_name_witness :
  returns (isBranchMerged Git.execSync EmptyString Scenario.dir)
    (Scenario.in_dir Scenario.unmerged) true (Scenario.in_dir Scenario.unmerged).
Proof.
  apply (isBranchMerged_of_empty_name Git.execSync Scenario.dir
           (Scenario.in_dir Scenario.unmerged) (Scenario.in_dir Scenario.unmerged)
           (Scenario.in_dir Scenario.unmerged) "main" ("main" +:+ Git.nl)).
  - vm_compute. reflexivity.
  - vm_compute. reflexivity.
  - right. exists "main". reflexivity.
Defined.

(** ** The first statements of this part on the examples *)

Lemma returned_names_are_trimmed_witness :
  ∃ ls w',
    returns (listLocalBranches Git.execSync Scenario.dir)
      (Scenario.in_dir Scenario.detached) ls w' ∧
    ∀ b, b ∈ ls → b ≠ EmptyString ∧ JS.trim b = b.
Proof.
  destruct (returned_names_are_trimmed Git.execSync Scenario.dir
              (Scenario.in_dir Scenario.detached))
    as (_ & ls & w' & Hls & Hall).
  exists ls, w'. split; [exact Hls|].
  intros b Hb. destruct (Hall b Hb) as (Hne & Htrim & _). auto.
Defined.

Lemma listRemoteBranches_entries_witness :
  ∃ rs w',
    returns (listRemoteBranches Git.execSync Scenario.dir)
      (Scenario.in_dir Scenario.two_remotes) rs w' ∧
    ∀ r, r ∈ rs → JS.includes "HEAD" (fullName r) = false.
Proof.
  destruct (listRemoteBranches_entries Git.execSync Scenario.dir
              (Scenario.in_dir Scenario.two_remotes))
    as (rs & w' & Hrs & Hall).
  exists rs, w'. split; [exact Hrs|].
  intros r Hr. destruct (Hall r Hr) as (_ & _ & Hhead & _). exact Hhead.
Defined.
